(** * Smart Translate: request dispatcher, result cache and proxy handler

    A shallow embedding of the extension's background listener
    (the message dispatcher with its TTL cache) and of the serverless
    proxy handler [translate.js], together with the properties the
    specification states about them.

    Conventions of the embedding.
    - A JavaScript string is a [string]: a sequence of code units in the
      range 0..255.  Code units above 255 are outside the model.
    - A JSON value is a [json]; numbers are kept as exact decimals
      [mantissa * 10 ^ exponent] (the rounding to binary64 is not modelled).
    - A plain object used as a dictionary is a [gmap string _] of its own
      properties, which is what [chrome.storage.local] persists.  The keys
      the listener builds all start with [t:], so none of them names a
      property inherited from [Object.prototype].
    - Asynchronous code is written in a small state monad over the
      observable world (storage, clock, responses sent, fetches issued)
      whose results are: a value, a thrown exception, or a promise that
      never settles. *)

From Stdlib Require Import ZArith Lia Ascii String.
From stdpp Require Import gmap strings list fin_maps.

Local Open Scope Z_scope.

(** ** JavaScript strings *)

Module Js.

(** The double quote, and a helper to write JSON texts with single quotes. *)
Definition dq : ascii := "034"%char.
Definition sq : ascii := "039"%char.

Fixpoint quoted (s : string) : string :=
  match s with
  | EmptyString => EmptyString
  | String c r => String (if Ascii.eqb c sq then dq else c) (quoted r)
  end.

(** The line feed. *)
Definition nl : string := String "010"%char EmptyString.

(** [WhiteSpace] and [LineTerminator] code units below 256: what
    [String.prototype.trim] strips and what the regular expression
    class [\s] matches. *)
Definition is_ws (c : ascii) : bool :=
  let n := N_of_ascii c in
  ((9 <=? n)%N && (n <=? 13)%N) || (n =? 32)%N || (n =? 160)%N.

Fixpoint trimStart (s : string) : string :=
  match s with
  | EmptyString => EmptyString
  | String c r => if is_ws c then trimStart r else s
  end.

Fixpoint trimEnd (s : string) : string :=
  match s with
  | EmptyString => EmptyString
  | String c r =>
      match trimEnd r with
      | EmptyString => if is_ws c then EmptyString else String c EmptyString
      | t => String c t
      end
  end.

(** [s.trim()] *)
Definition trim (s : string) : string := trimEnd (trimStart s).

(** [s.split(/\s+/)]: the pieces between maximal runs of white space,
    empty first and last pieces included; [skip] is set while a run of
    white space is being consumed. *)
Fixpoint split_go (skip : bool) (s : string) : list string :=
  match s with
  | EmptyString => [EmptyString]
  | String c r =>
      if is_ws c then
        if skip then split_go true r else EmptyString :: split_go true r
      else
        match split_go false r with
        | t :: ts => String c t :: ts
        | [] => [String c EmptyString]
        end
  end.

Definition split_ws (s : string) : list string := split_go false s.

(** Whether a text ends with white space; [b] answers for the empty text. *)
Fixpoint ends_ws (b : bool) (s : string) : bool :=
  match s with
  | EmptyString => b
  | String c r => ends_ws (is_ws c) r
  end.

(** [re.test(s)] for a character class given as a predicate. *)
Fixpoint test_class (p : ascii -> bool) (s : string) : bool :=
  match s with
  | EmptyString => false
  | String c r => p c || test_class p r
  end.

(** [c.repeat(n)] for a single character. *)
Fixpoint repeat_char (c : ascii) (n : nat) : string :=
  match n with
  | O => EmptyString
  | S k => String c (repeat_char c k)
  end.

(** [s.includes(c)] for a character [c]. *)
Definition occurs (c : ascii) (s : string) : bool :=
  test_class (fun a => Ascii.eqb a c) s.

(** Truthiness of a string: only the empty string is falsy. *)
Definition truthy_str (s : string) : bool :=
  match s with EmptyString => false | _ => true end.

(** [o || d] for an optional string property. *)
Definition or_default (o : option string) (d : string) : string :=
  match o with
  | Some s => if truthy_str s then s else d
  | None => d
  end.

(** [s.startsWith(p)], returning the rest of [s] after [p]. *)
Fixpoint strip_prefix (p s : string) : option string :=
  match p, s with
  | EmptyString, _ => Some s
  | String a p', String b s' => if Ascii.eqb a b then strip_prefix p' s' else None
  | String _ _, EmptyString => None
  end.

Definition lower (c : ascii) : ascii :=
  let n := N_of_ascii c in
  if ((65 <=? n)%N && (n <=? 90)%N)%bool then ascii_of_N (n + 32) else c.

(** Case-insensitive variant, for regular expressions with the [i] flag;
    [p] is given in lower case. *)
Fixpoint strip_prefix_ci (p s : string) : option string :=
  match p, s with
  | EmptyString, _ => Some s
  | String a p', String b s' =>
      if Ascii.eqb a (lower b) then strip_prefix_ci p' s' else None
  | String _ _, EmptyString => None
  end.

(** An exception value: an [Error] with its name and message. *)
Record JsError : Type := { err_name : string; err_message : string }.

(** [Error.prototype.toString] *)
Definition error_toString (err : JsError) : string :=
  if negb (truthy_str (err_message err)) then err_name err
  else if negb (truthy_str (err_name err)) then err_message err
  else err_name err +:+ ": " +:+ err_message err.

(** [String(err && err.message ? err.message : err)], and
    [String(err?.message || err)] *)
Definition failure_message (err : JsError) : string :=
  if truthy_str (err_message err) then err_message err else error_toString err.

End Js.

(** ** JSON values and [JSON.parse] *)

Module Json.
Import Js.

#[warnings="-register-all"] Inductive json : Type :=
  | JNull
  | JBool (b : bool)
  | JNum (mantissa exponent : Z)
  | JStr (s : string)
  | JArr (items : list json)
  | JObj (props : list (string * json)).

(** [!!v] *)
Definition truthy (v : json) : bool :=
  match v with
  | JNull => false
  | JBool b => b
  | JNum m _ => negb (m =? 0)
  | JStr s => truthy_str s
  | JArr _ | JObj _ => true
  end.

(** A property read yields [None] for [undefined]. *)
Definition truthy_opt (o : option json) : bool :=
  match o with Some v => truthy v | None => false end.

(** The properties of an object: [obj_get] reads one, [obj_set] assigns
    one, in place when the key is there already and at the end
    otherwise. *)
Fixpoint obj_get (k : string) (l : list (string * json)) : option json :=
  match l with
  | [] => None
  | (k', v) :: r => if String.eqb k k' then Some v else obj_get k r
  end.

Fixpoint obj_set (k : string) (v : json) (l : list (string * json)) :
  list (string * json) :=
  match l with
  | [] => [(k, v)]
  | (k', v') :: r =>
      if String.eqb k k' then (k, v) :: r else (k', v') :: obj_set k v r
  end.

(** The object a list of members denotes: when a key is repeated, the
    last value is kept. *)
Definition obj_of_members (l : list (string * json)) : list (string * json) :=
  fold_left (fun acc kv => obj_set (fst kv) (snd kv) acc) l [].

(** [v.k] for the property names the program reads ([translation],
    [error], [analysis], [text], [tts], ...): an own property of an
    object, [undefined] on any other value. *)
Definition prop (k : string) (v : json) : option json :=
  match v with
  | JObj l => obj_get k l
  | _ => None
  end.

(** [typeof v === 'number'] *)
Definition is_number (v : json) : bool :=
  match v with JNum _ _ => true | _ => false end.

(** [v === s] for a string literal [s] *)
Definition is_str (s : string) (o : option json) : bool :=
  match o with Some (JStr t) => String.eqb t s | _ => false end.

(** *** The parser: the JSON grammar of ECMA-404 *)

Definition is_jws (c : ascii) : bool :=
  let n := N_of_ascii c in
  (n =? 32)%N || (n =? 9)%N || (n =? 10)%N || (n =? 13)%N.

Fixpoint skip_ws (s : string) : string :=
  match s with
  | String c r => if is_jws c then skip_ws r else s
  | EmptyString => EmptyString
  end.

Definition digit (c : ascii) : option Z :=
  let n := N_of_ascii c in
  if ((48 <=? n)%N && (n <=? 57)%N)%bool then Some (Z.of_N n - 48) else None.

(** A maximal run of decimal digits: value, number of digits, rest. *)
Fixpoint digits (acc cnt : Z) (s : string) : Z * Z * string :=
  match s with
  | String c r =>
      match digit c with
      | Some d => digits (acc * 10 + d) (cnt + 1) r
      | None => (acc, cnt, s)
      end
  | EmptyString => (acc, cnt, s)
  end.

Definition parse_exponent (s : string) : option (Z * string) :=
  match s with
  | String c r =>
      if (Ascii.eqb c "e" || Ascii.eqb c "E")%bool then
        let '(sgn, r1) :=
          match r with
          | String d r' =>
              if Ascii.eqb d "+" then (1, r')
              else if Ascii.eqb d "-" then (-1, r') else (1, r)
          | EmptyString => (1, r)
          end in
        let '(e, n, r2) := digits 0 0 r1 in
        if n =? 0 then None else Some (sgn * e, r2)
      else Some (0, s)
  | EmptyString => Some (0, s)
  end.

Definition parse_fraction (ip : Z) (s : string) : option (Z * Z * string) :=
  match s with
  | String c r =>
      if Ascii.eqb c "." then
        let '(m, k, r1) := digits ip 0 r in
        if k =? 0 then None else Some (m, k, r1)
      else Some (ip, 0, s)
  | EmptyString => Some (ip, 0, s)
  end.

(** A number: an optional minus sign, an integer part without leading
    zero, an optional fraction and an optional exponent. *)
Definition parse_number (s : string) : option (json * string) :=
  let '(neg, s1) :=
    match s with
    | String c r => if Ascii.eqb c "-" then (true, r) else (false, s)
    | EmptyString => (false, s)
    end in
  match s1 with
  | String c r =>
      match digit c with
      | None => None
      | Some d =>
          let '(ip, _, s2) := if d =? 0 then (0, 1, r) else digits d 1 r in
          match parse_fraction ip s2 with
          | None => None
          | Some (m, k, s3) =>
              match parse_exponent s3 with
              | None => None
              | Some (e, s4) => Some (JNum (if neg then - m else m) (e - k), s4)
              end
          end
      end
  | EmptyString => None
  end.

Definition hex (c : ascii) : option N :=
  let n := N_of_ascii c in
  if ((48 <=? n) && (n <=? 57))%N%bool then Some (n - 48)%N
  else if ((97 <=? n) && (n <=? 102))%N%bool then Some (n - 87)%N
  else if ((65 <=? n) && (n <=? 70))%N%bool then Some (n - 55)%N
  else None.

Definition escape (c : ascii) : option ascii :=
  if Ascii.eqb c dq then Some dq
  else if Ascii.eqb c "\" then Some "\"%char
  else if Ascii.eqb c "/" then Some "/"%char
  else if Ascii.eqb c "b" then Some "008"%char
  else if Ascii.eqb c "f" then Some "012"%char
  else if Ascii.eqb c "n" then Some "010"%char
  else if Ascii.eqb c "r" then Some "013"%char
  else if Ascii.eqb c "t" then Some "009"%char
  else None.

Definition cons_char (c : ascii) (o : option (string * string)) :
  option (string * string) :=
  match o with
  | Some (t, r) => Some (String c t, r)
  | None => None
  end.

(** The characters of a string literal, after its opening quote. An
    escape [\uXXXX] above [ÿ] has no counterpart among the code
    units of the model and is not accepted. *)
Fixpoint parse_chars (s : string) : option (string * string) :=
  match s with
  | EmptyString => None
  | String c r =>
      if Ascii.eqb c dq then Some (EmptyString, r)
      else if Ascii.eqb c "\" then
        match r with
        | EmptyString => None
        | String e r1 =>
            match escape e with
            | Some ch => cons_char ch (parse_chars r1)
            | None =>
                if Ascii.eqb e "u" then
                  match r1 with
                  | String h1 (String h2 (String h3 (String h4 r2))) =>
                      match hex h1, hex h2, hex h3, hex h4 with
                      | Some 0%N, Some 0%N, Some a, Some b =>
                          cons_char (ascii_of_N (16 * a + b)) (parse_chars r2)
                      | _, _, _, _ => None
                      end
                  | _ => None
                  end
                else None
            end
        end
      else if (N_of_ascii c <? 32)%N then None
      else cons_char c (parse_chars r)
  end.

(** [true], [false], [null] or a number. *)
Definition parse_scalar (s : string) : option (json * string) :=
  match strip_prefix "true" s with
  | Some r => Some (JBool true, r)
  | None =>
      match strip_prefix "false" s with
      | Some r => Some (JBool false, r)
      | None =>
          match strip_prefix "null" s with
          | Some r => Some (JNull, r)
          | None => parse_number s
          end
      end
  end.

Fixpoint parse_value (fuel : nat) (s : string) : option (json * string) :=
  match fuel with
  | O => None
  | S fuel =>
      match s with
      | EmptyString => None
      | String c r =>
          if Ascii.eqb c "{" then
            match skip_ws r with
            | String c' r' =>
                if Ascii.eqb c' "}" then Some (JObj [], r')
                else
                  match parse_members fuel (String c' r') with
                  | Some (l, r2) => Some (JObj (obj_of_members l), r2)
                  | None => None
                  end
            | EmptyString => None
            end
          else if Ascii.eqb c "[" then
            match skip_ws r with
            | String c' r' =>
                if Ascii.eqb c' "]" then Some (JArr [], r')
                else
                  match parse_elements fuel (String c' r') with
                  | Some (l, r2) => Some (JArr l, r2)
                  | None => None
                  end
            | EmptyString => None
            end
          else if Ascii.eqb c dq then
            match parse_chars r with
            | Some (t, r') => Some (JStr t, r')
            | None => None
            end
          else parse_scalar s
      end
  end
with parse_elements (fuel : nat) (s : string) : option (list json * string) :=
  match fuel with
  | O => None
  | S fuel =>
      match parse_value fuel (skip_ws s) with
      | None => None
      | Some (v, r) =>
          match skip_ws r with
          | String c r' =>
              if Ascii.eqb c "," then
                match parse_elements fuel r' with
                | Some (vs, r2) => Some (v :: vs, r2)
                | None => None
                end
              else if Ascii.eqb c "]" then Some ([v], r')
              else None
          | EmptyString => None
          end
      end
  end
with parse_members (fuel : nat) (s : string) :
  option (list (string * json) * string) :=
  match fuel with
  | O => None
  | S fuel =>
      match skip_ws s with
      | EmptyString => None
      | String q r =>
          if Ascii.eqb q dq then
            match parse_chars r with
            | None => None
            | Some (k, r1) =>
                match skip_ws r1 with
                | EmptyString => None
                | String c r2 =>
                    if Ascii.eqb c ":" then
                      match parse_value fuel (skip_ws r2) with
                      | None => None
                      | Some (v, r3) =>
                          match skip_ws r3 with
                          | EmptyString => None
                          | String c' r4 =>
                              if Ascii.eqb c' "," then
                                match parse_members fuel r4 with
                                | Some (l, r5) => Some ((k, v) :: l, r5)
                                | None => None
                                end
                              else if Ascii.eqb c' "}" then Some ([(k, v)], r4)
                              else None
                          end
                      end
                    else None
                end
            end
          else None
      end
  end.

(** [JSON.parse(s)]: [None] stands for the [SyntaxError] it throws. *)
Definition JSON_parse (s : string) : option json :=
  match parse_value (2 * String.length s + 2) (skip_ws s) with
  | Some (v, r) =>
      match skip_ws r with
      | EmptyString => Some v
      | String _ _ => None
      end
  | None => None
  end.

End Json.

(** ** The background listener: configuration, cache and dispatch *)

Module Dispatcher.
Import Js Json.

(** *** The observable world *)

Record CacheEntry : Type := { translation : json; ts : Z }.

(** [chrome.storage.local], restricted to the three keys the listener
    uses. *)
Record Storage : Type := {
  proxyUrl : option string;
  proxyToken : option string;
  translationCacheV1 : option (gmap string CacheEntry)
}.

(** A response as the proxy delivers it: the status line and what
    reading the body gives. *)
Inductive BodyRead : Type :=
  | BodyText (s : string)
  | BodyFails (e : JsError)
  | BodyNeverSettles.

Record HttpResponse : Type := { status : Z; body : BodyRead }.

Definition ok (r : HttpResponse) : bool :=
  (200 <=? status r) && (status r <=? 299).

(** What a call of [fetch] does when it is left alone: it settles after
    [latency] milliseconds, or never. *)
Inductive FetchBehaviour : Type :=
  | FetchResolves (latency : Z) (resp : HttpResponse)
  | FetchRejects (latency : Z) (err : JsError)
  | FetchNeverSettles.

Record FetchCall : Type := {
  url : string;
  headers : list (string * string);
  payload : json
}.

(** The surroundings of one dispatch: the network and the time one
    access to the storage takes. *)
Record Env : Type := {
  network : FetchCall -> FetchBehaviour;
  storageLatency : Z
}.

(** The object handed to [sendResponse]. *)
Inductive Response : Type :=
  | Translation (translation : json) (cached : bool)
  | Analysis (analysis : json)
  | Audio (audio mime : json)
  | Failure (error : string) (fields : list (string * json)).

Record World : Type := {
  storage : Storage;
  now : Z;                      (* Date.now() *)
  abortAt : option Z;           (* the pending abort timer, if any *)
  sent : list Response;         (* calls of sendResponse, oldest first *)
  fetches : list FetchCall      (* calls of fetch, oldest first *)
}.

(** *** Promises: a state monad with exceptions and non-settlement *)

Inductive Outcome (A : Type) : Type :=
  | Done (a : A)
  | Thrown (e : JsError)
  | Pending.
Arguments Done {A} a.
Arguments Thrown {A} e.
Arguments Pending {A}.

Definition M (A : Type) : Type := World -> Outcome A * World.

(** The result of a computation started in [w], and the world it leaves. *)
Definition result {A : Type} (m : M A) (w : World) : Outcome A := fst (m w).
Definition exec {A : Type} (m : M A) (w : World) : World := snd (m w).

(** [wp m Q w]: the computation [m], started in [w], ends with a result
    and in a world that [Q] accepts. *)
Definition wp {A : Type} (m : M A) (Q : Outcome A -> World -> Prop) (w : World) :
  Prop :=
  Q (result m w) (exec m w).

#[global] Instance M_ret : MRet M := fun A a w => (Done a, w).

#[global] Instance M_bind : MBind M := fun A B f m w =>
  match m w with
  | (Done a, w') => f a w'
  | (Thrown e, w') => (Thrown e, w')
  | (Pending, w') => (Pending, w')
  end.

Definition throw {A : Type} (e : JsError) : M A := fun w => (Thrown e, w).

Definition never {A : Type} : M A := fun w => (Pending, w).

(** [try { m } catch (err) { h err }], and [p.catch(h)]. *)
Definition try_catch {A : Type} (m : M A) (h : JsError -> M A) : M A :=
  fun w =>
    match m w with
    | (Thrown e, w') => h e w'
    | r => r
    end.

(** A promise that is started and not awaited, with [.catch(() => {})]:
    its effects take place, its result is dropped. *)
Definition detached {A : Type} (m : M A) : M unit :=
  fun w => (Done tt, exec m w).

Definition get_world : M World := fun w => (Done w, w).

Definition modify (f : World -> World) : M unit := fun w => (Done tt, f w).

Definition elapse (d : Z) (w : World) : World :=
  {| storage := storage w; now := now w + d; abortAt := abortAt w;
     sent := sent w; fetches := fetches w |}.

Definition sleep (d : Z) : M unit := modify (elapse d).

Definition Date_now : M Z := w ← get_world; mret (now w).

(** [chrome.storage.local.get]: the callback runs one storage latency
    later. *)
Definition storage_get (env : Env) : M Storage :=
  sleep (storageLatency env);; w ← get_world; mret (storage w).

Definition with_cache (map : gmap string CacheEntry) (w : World) : World :=
  {| storage := {| proxyUrl := proxyUrl (storage w);
                   proxyToken := proxyToken (storage w);
                   translationCacheV1 := Some map |};
     now := now w; abortAt := abortAt w;
     sent := sent w; fetches := fetches w |}.

(** [chrome.storage.local.set({ [CACHE_KEY]: map }, callback)] *)
Definition storage_set_cache (env : Env) (map : gmap string CacheEntry) : M unit :=
  sleep (storageLatency env);; modify (with_cache map).

Definition sendResponse (r : Response) : M unit :=
  modify (fun w =>
    {| storage := storage w; now := now w; abortAt := abortAt w;
       sent := sent w ++ [r]; fetches := fetches w |}).

(** [setTimeout(() => controller.abort(), timeoutMs)] *)
Definition setTimeout_abort (timeoutMs : Z) : M unit :=
  modify (fun w =>
    {| storage := storage w; now := now w;
       abortAt := Some (now w + timeoutMs);
       sent := sent w; fetches := fetches w |}).

Definition clearTimeout : M unit :=
  modify (fun w =>
    {| storage := storage w; now := now w; abortAt := None;
       sent := sent w; fetches := fetches w |}).

Definition AbortError : JsError :=
  {| err_name := "AbortError"; err_message := "signal is aborted without reason" |}.

Definition log_fetch (c : FetchCall) : M unit :=
  modify (fun w =>
    {| storage := storage w; now := now w; abortAt := abortAt w;
       sent := sent w; fetches := fetches w ++ [c] |}).

(** The time left before the abort timer fires: [None] when no timer is
    pending. *)
Definition time_left (w : World) : option Z :=
  match abortAt w with
  | Some t => Some (Z.max 0 (t - now w))
  | None => None
  end.

(** [await fetch(url, { ..., signal: controller.signal })]: the call
    settles as the network decides if it does so before the abort timer
    fires; otherwise it rejects with an [AbortError] at that moment. *)
Definition fetch (env : Env) (c : FetchCall) : M HttpResponse :=
  log_fetch c;;
  w ← get_world;
  let settle (latency : Z) (k : M HttpResponse) : M HttpResponse :=
    match time_left w with
    | Some remaining =>
        if latency <? remaining then sleep latency;; k
        else sleep remaining;; throw AbortError
    | None => sleep latency;; k
    end in
  match network env c with
  | FetchResolves latency resp => settle latency (mret resp)
  | FetchRejects latency err => settle latency (throw err)
  | FetchNeverSettles =>
      match time_left w with
      | Some remaining => sleep remaining;; throw AbortError
      | None => never
      end
  end.

(** [resp.text()] *)
Definition resp_text (r : HttpResponse) : M string :=
  match body r with
  | BodyText s => mret s
  | BodyFails e => throw e
  | BodyNeverSettles => never
  end.

Definition SyntaxError : JsError :=
  {| err_name := "SyntaxError"; err_message := "Unexpected token in JSON" |}.

(** [resp.json()] *)
Definition resp_json (r : HttpResponse) : M json :=
  s ← resp_text r;
  match JSON_parse s with
  | Some v => mret v
  | None => throw SyntaxError
  end.

(** *** Configuration *)

Record ProxyConfig : Type := { cfg_url : string; cfg_token : option string }.

Definition getProxyConfig (env : Env) : M ProxyConfig :=
  res ← storage_get env;
  mret {| cfg_url := or_default (proxyUrl res)
            "https://smarttranslateplus-f5y4.vercel.app/api/translate";
          cfg_token := match proxyToken res with
                       | Some t => if truthy_str t then Some t else None
                       | None => None
                       end |}.

(** *** The cache *)

Definition CACHE_TTL_MS : Z := 24 * 60 * 60 * 1000.

Definition cache_of (res : Storage) : gmap string CacheEntry :=
  match translationCacheV1 res with
  | Some m => m
  | None => ∅
  end.

(** [Date.now() - entry.ts] as a read that starts in [w] computes it. *)
Definition age_at_read (env : Env) (w : World) (entry : CacheEntry) : Z :=
  now w + storageLatency env - ts entry.

(** [getCachedTranslation(key)]: [None] is [null]. *)
Definition getCachedTranslation (env : Env) (key : string) : M (option json) :=
  res ← storage_get env;
  let map := cache_of res in
  match map !! key with
  | None => mret None
  | Some entry =>
      t ← Date_now;
      if t - ts entry >? CACHE_TTL_MS then
        storage_set_cache env (delete key map);;
        mret None
      else mret (Some (translation entry))
  end.

Definition setCachedTranslation (env : Env) (key : string) (translation : json) :
  M unit :=
  res ← storage_get env;
  t ← Date_now;
  storage_set_cache env (<[key := {| translation := translation; ts := t |}]> (cache_of res)).

(** *** The message listener *)

(** A message of the request channel. A field that is absent is [None]. *)
Record Message : Type := {
  type : option string;
  text : option string;
  target : option string;
  voice : option string
}.

Definition timeoutMs (type : string) : Z :=
  if String.eqb type "GET_TTS" then 25000 else 15000.

(** The template [`t:${target}|${text}`]. *)
Definition cacheKey (target text : string) : string :=
  "t:" +:+ target +:+ "|" +:+ text.

(** The [catch (err)] block that closes the asynchronous body. *)
Definition on_error (err : JsError) : M unit :=
  clearTimeout;;
  if String.eqb (err_name err) "AbortError" then
    sendResponse (Failure "timeout" [])
  else
    sendResponse (Failure "request_failed" [("message", JStr (failure_message err))]).

Definition request_headers (cfg : ProxyConfig) : list (string * string) :=
  ("Content-Type", "application/json") ::
  match cfg_token cfg with
  | Some token => [("x-proxy-token", token)]
  | None => []
  end.

Definition post (env : Env) (cfg : ProxyConfig) (payload : json) : M HttpResponse :=
  fetch env {| url := cfg_url cfg; headers := request_headers cfg; payload := payload |}.

(** [sendResponse({ error: 'proxy_error', status: resp.status, message: txt })]
    after [const txt = await resp.text().catch(() => '')]. *)
Definition respond_proxy_error (resp : HttpResponse) : M unit :=
  txt ← try_catch (resp_text resp) (fun _ => mret EmptyString);
  sendResponse
    (Failure "proxy_error" [("status", JNum (status resp) 0); ("message", JStr txt)]).

(** [await resp.json().catch(() => null)] *)
Definition read_json (resp : HttpResponse) : M json :=
  try_catch (resp_json resp) (fun _ => mret JNull).

Definition translate_text (env : Env) (cfg : ProxyConfig) (message : Message)
    (text : string) : M unit :=
  let target := or_default (target message) "it" in
  let cacheKey := cacheKey target text in
  cached ← try_catch (getCachedTranslation env cacheKey) (fun _ => mret None);
  if truthy_opt cached then
    sendResponse (Translation (default JNull cached) true);;
    clearTimeout
  else
    resp ← post env cfg (JObj [("text", JStr text); ("target", JStr target)]);
    clearTimeout;;
    if negb (ok resp) then respond_proxy_error resp
    else
      data ← read_json resp;
      if negb (truthy data) then sendResponse (Failure "invalid_response" [])
      else if truthy_opt (prop "translation" data) then
        detached (setCachedTranslation env cacheKey
                    (default JNull (prop "translation" data)));;
        sendResponse (Translation (default JNull (prop "translation" data)) false)
      else if truthy_opt (prop "error" data) then
        sendResponse (Failure "proxy_error" [("detail", data)])
      else
        sendResponse (Failure "proxy_no_translation" [("raw", data)]).

Definition analyze_text (env : Env) (cfg : ProxyConfig) (text : string) : M unit :=
  resp ← post env cfg (JObj [("text", JStr text); ("action", JStr "analyze")]);
  clearTimeout;;
  if negb (ok resp) then respond_proxy_error resp
  else
    data ← read_json resp;
    if negb (truthy data) || negb (truthy_opt (prop "analysis" data)) then
      sendResponse (Failure "no_analysis" [("raw", data)])
    else sendResponse (Analysis (default JNull (prop "analysis" data))).

Definition get_tts (env : Env) (cfg : ProxyConfig) (message : Message)
    (text : string) : M unit :=
  let voice := match voice message with
               | Some v => if truthy_str v then JStr v else JNull
               | None => JNull
               end in
  resp ← post env cfg (JObj [("text", JStr text); ("tts", JBool true); ("voice", voice)]);
  clearTimeout;;
  if negb (ok resp) then respond_proxy_error resp
  else
    data ← read_json resp;
    if negb (truthy data) || negb (truthy_opt (prop "audio" data)) then
      sendResponse (Failure "no_audio" [("raw", data)])
    else
      sendResponse
        (Audio (default JNull (prop "audio" data))
               (if truthy_opt (prop "mime" data)
                then default JNull (prop "mime" data) else JStr "audio/mpeg")).

(** The asynchronous body [(async () => { ... })()], for a message of
    kind [type] whose trimmed text is [text]. *)
Definition dispatch (env : Env) (type : string) (message : Message)
    (text : string) : M unit :=
  cfg ← getProxyConfig env;
  setTimeout_abort (timeoutMs type);;
  try_catch
    (if String.eqb type "TRANSLATE_TEXT" then translate_text env cfg message text
     else if String.eqb type "ANALYZE_TEXT" then analyze_text env cfg text
     else if String.eqb type "GET_TTS" then get_tts env cfg message text
     else
       sendResponse (Failure "unknown_message_type" []);;
       clearTimeout)
    on_error.

(** [String(message.text || '').trim()] *)
Definition request_text (message : Message) : string :=
  trim (or_default (text message) "").

(** The network lets every body it starts to deliver be read to its end
    or fail. *)
Definition body_settles (env : Env) : Prop :=
  forall c l r, network env c = FetchResolves l r -> body r <> BodyNeverSettles.

(** The network does not settle a call before [deadline] milliseconds. *)
Definition too_slow (deadline : Z) (b : FetchBehaviour) : Prop :=
  match b with
  | FetchResolves l _ | FetchRejects l _ => deadline <= l
  | FetchNeverSettles => True
  end.

(** What one invocation of the listener amounts to: the value it returns
    ([None] for [undefined]), how the asynchronous body ended, and the
    world once everything that settles has settled. *)
Record Run : Type := {
  returned : option bool;
  task : Outcome unit;
  final : World
}.

Definition run {A : Type} (ret : option bool) (m : M A) (w : World) : Run :=
  {| returned := ret;
     task := match result m w with
             | Done _ => Done tt
             | Thrown e => Thrown e
             | Pending => Pending
             end;
     final := exec m w |}.

(** [chrome.runtime.onMessage.addListener((message, sender, sendResponse) => ...)] *)
Definition listener (env : Env) (message : option Message) (w : World) : Run :=
  match message with
  | None => run None (mret tt) w
  | Some message =>
      match type message with
      | None => run None (mret tt) w
      | Some type =>
          if negb (truthy_str type) then run None (mret tt) w
          else
            let text := request_text message in
            if negb (truthy_str text) then
              run (Some true) (sendResponse (Failure "empty_text" [])) w
            else if Z.of_nat (String.length text) >? 10000 then
              run (Some true) (sendResponse (Failure "text_too_long" [])) w
            else
              run (Some true) (dispatch env type message text) w
      end
  end.

End Dispatcher.

(** ** The proxy handler [translate.js] *)

Module Proxy.
Import Js Json.

(** *** Recovering an object from the model's answer *)

(** [content.replace(/^```(?:json)?\s*/i, '')] *)
Definition strip_fence_start (content : string) : string :=
  match strip_prefix "```" content with
  | Some r =>
      match strip_prefix_ci "json" r with
      | Some r' => trimStart r'
      | None => trimStart r
      end
  | None => content
  end.

Fixpoint all_ws (s : string) : bool :=
  match s with
  | EmptyString => true
  | String c r => is_ws c && all_ws r
  end.

(** [content.replace(/```\s*$/i, '')]: the leftmost fence that only white
    space separates from the end of the text is removed with that white
    space. *)
Fixpoint strip_fence_end (content : string) : string :=
  match content with
  | EmptyString => EmptyString
  | String c r =>
      match strip_prefix "```" content with
      | Some rest => if all_ws rest then EmptyString else String c (strip_fence_end r)
      | None => String c (strip_fence_end r)
      end
  end.

(** The cleaned text: [content.trim()], then the two replacements. *)
Definition clean (content : string) : string :=
  strip_fence_end (strip_fence_start (trim content)).

(** The suffix that starts at the first occurrence of [c]. *)
Fixpoint from_first (c : ascii) (s : string) : option string :=
  match s with
  | EmptyString => None
  | String a r => if Ascii.eqb a c then Some s else from_first c r
  end.

(** The prefix that ends at the last occurrence of [c]. *)
Fixpoint up_to_last (c : ascii) (s : string) : option string :=
  match s with
  | EmptyString => None
  | String a r =>
      match up_to_last c r with
      | Some p => Some (String a p)
      | None => if Ascii.eqb a c then Some (String a EmptyString) else None
      end
  end.

(** [content.match(/\{[\s\S]*\}/)]: the star is greedy, so the match runs
    from the first opening brace to the last closing brace after it. *)
Definition match_braces (content : string) : option string :=
  match from_first "{" content with
  | Some s => up_to_last "}" s
  | None => None
  end.

(** [!parsed || typeof parsed !== 'object'] *)
Definition not_an_object (parsed : json) : bool :=
  negb (truthy parsed) ||
  negb (match parsed with JObj _ | JArr _ => true | _ => false end).

(** The outcome of the recovery: the parsed value, or the [raw] text and
    the [hint] of the [invalid_analysis] answer. *)
Inductive Parsed : Type :=
  | ParseOk (parsed : json)
  | ParseFailure (raw hint : string).

(** From [content = content.trim()] to the check of the structure. *)
Definition parse_model_output (content : string) : Parsed :=
  let content := clean content in
  let validate (parsed : json) : Parsed :=
    if not_an_object parsed
    then ParseFailure content "Parsed result is not an object"
    else ParseOk parsed in
  match JSON_parse content with
  | Some parsed => validate parsed
  | None =>
      match match_braces content with
      | Some jsonMatch =>
          match JSON_parse jsonMatch with
          | Some parsed => validate parsed
          | None => ParseFailure content "Could not parse model output as JSON"
          end
      | None => ParseFailure content "No JSON structure found in response"
      end
  end.

(** [parsed.k = parsed.k || []] *)
Definition default_array (k : string) (parsed : json) : json :=
  match parsed with
  | JObj l => if truthy_opt (obj_get k l) then parsed else JObj (obj_set k (JArr []) l)
  | _ => parsed
  end.

(** "Ensure required fields exist" *)
Definition ensure_fields (parsed : json) : json :=
  if is_str "word" (prop "type" parsed) then
    default_array "examples" (default_array "antonyms" (default_array "synonyms" parsed))
  else if is_str "sentence" (prop "type" parsed) then
    default_array "examples" (default_array "words" parsed)
  else parsed.

(** *** Word or sentence *)

Definition terminal_punctuation (c : ascii) : bool :=
  Ascii.eqb c "." || Ascii.eqb c "!" || Ascii.eqb c "?" || Ascii.eqb c ";".

(** [wordCount === 1 && !/[.!?;]/.test(trimmed)] for
    [trimmed = text.trim()] and [wordCount = trimmed.split(/\s+/).length] *)
Definition isSingleWord (text : string) : bool :=
  let trimmed := trim text in
  let wordCount := length (split_ws trimmed) in
  Nat.eqb wordCount 1 && negb (test_class terminal_punctuation trimmed).

(** *** The handler *)

Record Request : Type := {
  method : string;
  body : option json;       (* req.body as the platform parsed it, if it did *)
  stream : string + JsError (* the data of the request stream, or its error *)
}.

(** [process.env] and the Node runtime. *)
Record Env : Type := {
  OPENAI_API_KEY : option string;
  OPENAI_MODEL : option string;
  ELEVENLABS_KEY : option string;
  ELEVEN_API_KEY : option string;
  ELEVEN_VOICE_ID : option string;
  base64 : string -> string   (* Buffer.from(bytes).toString('base64') *)
}.

(** The three branches of the handler. *)
Inductive Action : Type := Analyze | Synthesize | Translate.

(** A call to a provider, recorded by what determines its URL and body:
    the analysis prompts are a function of [isSingleWord] and of the
    trimmed text, the translation prompt of the target and of the text. *)
Inductive UpstreamCall : Type :=
  | ChatAnalyze (model : string) (isSingleWord : bool) (trimmed : string)
  | ChatTranslate (model : string) (target : json) (text : string)
  | TextToSpeech (key : string) (voice : json) (text : string).

(** What the provider does with a call: it answers with a status and a
    body (or an error when the body is read), or the call itself fails. *)
Inductive Upstream : Type :=
  | Responds (status : Z) (body : string + JsError)
  | Rejects (e : JsError).

Record Response : Type := {
  status : Z;
  cors : bool;               (* the three Access-Control-Allow-* headers *)
  answer : option json       (* None: res.end() *)
}.

Record Result : Type := {
  response : Response;
  calls : list UpstreamCall;
  route : option Action      (* the branch taken, once the payload is accepted *)
}.

Definition reply (st : Z) (c : bool) (fields : list (string * json)) : Response :=
  {| status := st; cors := c; answer := Some (JObj fields) |}.

Definition up_ok (st : Z) : bool := (200 <=? st) && (st <=? 299).

Definition env_or (a b : option string) : option string :=
  match a with
  | Some s => if truthy_str s then a else b
  | None => b
  end.

(** [data?.choices?.[0]?.message?.content] *)
Definition first_choice_content (data : json) : option json :=
  match prop "choices" data with
  | Some (JArr (c :: _)) => match prop "message" c with
                            | Some m => prop "content" m
                            | None => None
                            end
  | Some (JObj l) => match obj_get "0" l with
                     | Some c => match prop "message" c with
                                 | Some m => prop "content" m
                                 | None => None
                                 end
                     | None => None
                     end
  | _ => None
  end.

Definition TypeError (what : string) : JsError :=
  {| err_name := "TypeError"; err_message := what |}.

Definition SyntaxError : JsError :=
  {| err_name := "SyntaxError"; err_message := "Unexpected token in JSON" |}.

(** The body of the [try] block answers, or throws. *)
Definition Tried : Type := (Response + JsError)%type.

Definition analyze_path (up : Upstream) : Tried :=
  match up with
  | Rejects e => inr e
  | Responds st b =>
      match b with
      | inr e => inr e
      | inl txt =>
          if negb (up_ok st) then
            inl (reply 502 true [("error", JStr "openai_error"); ("detail", JStr txt)])
          else
            match JSON_parse txt with
            | None => inr SyntaxError
            | Some data =>
                let content :=
                  if truthy_opt (first_choice_content data)
                  then default JNull (first_choice_content data)
                  else JStr EmptyString in
                match content with
                | JStr content =>
                    match parse_model_output content with
                    | ParseFailure raw hint =>
                        inl (reply 502 true
                               [("error", JStr "invalid_analysis");
                                ("raw", JStr raw); ("hint", JStr hint)])
                    | ParseOk parsed =>
                        inl (reply 200 true [("analysis", ensure_fields parsed)])
                    end
                | _ => inr (TypeError "content.trim is not a function")
                end
            end
      end
  end.

Definition synthesize_path (env : Env) (up : Upstream) : Tried :=
  match up with
  | Rejects e =>
      inl (reply 502 true
             [("error", JStr "tts_failed"); ("message", JStr (failure_message e))])
  | Responds st b =>
      if negb (up_ok st) then
        inl (reply 502 true
               [("error", JStr "eleven_error"); ("status", JNum st 0);
                ("detail", JStr (match b with inl txt => txt | inr _ => EmptyString end))])
      else
        match b with
        | inr e =>
            inl (reply 502 true
                   [("error", JStr "tts_failed"); ("message", JStr (failure_message e))])
        | inl bytes =>
            inl (reply 200 true
                   [("audio", JStr (base64 env bytes)); ("mime", JStr "audio/mpeg")])
        end
  end.

Definition translate_path (up : Upstream) : Tried :=
  match up with
  | Rejects e => inr e
  | Responds st b =>
      match b with
      | inr e => inr e
      | inl txt =>
          if negb (up_ok st) then
            inl (reply 502 true [("error", JStr "openai_error"); ("detail", JStr txt)])
          else
            match JSON_parse txt with
            | None => inr SyntaxError
            | Some data =>
                match first_choice_content data with
                | Some (JStr content) =>
                    if truthy_str (trim content)
                    then inl (reply 200 true [("translation", JStr (trim content))])
                    else inl (reply 502 true
                                [("error", JStr "no_translation"); ("raw", data)])
                | Some JNull | None =>
                    inl (reply 502 true
                           [("error", JStr "no_translation"); ("raw", data)])
                | Some _ => inr (TypeError "content.trim is not a function")
                end
            end
      end
  end.

(** The [catch (err)] block of the handler. *)
Definition proxy_failed (err : JsError) : Response :=
  reply 500 true [("error", JStr "proxy_failed"); ("message", JStr (failure_message err))].

Definition finish (r : option Action) (c : list UpstreamCall) (t : Tried) : Result :=
  {| response := match t with inl a => a | inr err => proxy_failed err end;
     calls := c; route := r |}.

Definition reject (a : Response) : Result :=
  {| response := a; calls := []; route := None |}.

(** The part of the handler that follows the parsing of the body, for
    [payload = req.body]. *)
Definition handle_payload (env : Env) (upstream : UpstreamCall -> Upstream)
    (req_method : string) (payload : option json) : Result :=
  if String.eqb req_method "OPTIONS" then
    reject {| status := 200; cors := true; answer := None |}
  else if negb (String.eqb req_method "POST") then
    reject (reply 405 true [("error", JStr "method_not_allowed")])
  else
    let fields := if truthy_opt payload then default JNull payload else JObj [] in
    let text := prop "text" fields in
    let target := prop "target" fields in
    let tts := prop "tts" fields in
    let voice := prop "voice" fields in
    let action := prop "action" fields in
    match text with
    | Some (JStr text) =>
        if negb (truthy_str text) then
          reject (reply 400 true [("error", JStr "missing_text")])
        else if Z.of_nat (String.length text) >? 10000 then
          reject (reply 400 true [("error", JStr "text_too_long")])
        else
          match env_or (OPENAI_API_KEY env) None with
          | None => reject (reply 500 true [("error", JStr "server_misconfigured")])
          | Some OPENAI_KEY =>
              let model := or_default (OPENAI_MODEL env) "gpt-3.5-turbo" in
              if is_str "analyze" action then
                let call := ChatAnalyze model (isSingleWord text) (trim text) in
                finish (Some Analyze) [call] (analyze_path (upstream call))
              else if truthy_opt tts then
                let ELEVEN_KEY := env_or (ELEVENLABS_KEY env) (env_or (ELEVEN_API_KEY env) None) in
                let ELEVEN_VOICE :=
                  match env_or (ELEVEN_VOICE_ID env) None with
                  | Some v => Some (JStr v)
                  | None => if truthy_opt voice then voice else None
                  end in
                match ELEVEN_KEY, ELEVEN_VOICE with
                | Some key, Some v =>
                    let call := TextToSpeech key v text in
                    finish (Some Synthesize) [call] (synthesize_path env (upstream call))
                | _, _ =>
                    finish (Some Synthesize) []
                      (inl (reply 500 true
                              [("error", JStr "tts_not_configured");
                               ("detail", JStr "Missing ELEVENLABS_KEY or ELEVEN_VOICE_ID in server env")]))
                end
              else
                let call :=
                  ChatTranslate model
                    (if truthy_opt target then default JNull target else JStr "it") text in
                finish (Some Translate) [call] (translate_path (upstream call))
          end
    | _ => reject (reply 400 true [("error", JStr "missing_text")])
    end.

(** [export default async function handler(req, res)] *)
Definition handler (env : Env) (upstream : UpstreamCall -> Upstream)
    (req : Request) : Result :=
  if String.eqb (method req) "POST" && negb (truthy_opt (body req)) then
    match stream req with
    | inr e =>
        reject (reply 400 false
                  [("error", JStr "invalid_json"); ("detail", JStr (error_toString e))])
    | inl data =>
        match JSON_parse data with
        | Some parsed => handle_payload env upstream (method req) (Some parsed)
        | None =>
            reject (reply 400 false
                      [("error", JStr "invalid_json");
                       ("detail", JStr (error_toString SyntaxError))])
        end
    end
  else handle_payload env upstream (method req) (body req).

(** The request carries [fields] as its payload: the platform parsed
    them, or it left the body unparsed and the stream holds their JSON
    text. *)
Definition carries (req : Request) (fields : json) : Prop :=
  body req = Some fields \/
  exists data, body req = None /\ stream req = inl data /\
               JSON_parse data = Some fields.

End Proxy.

(** ** The specification's own wording, for the comparisons below *)

Module Spec.
Import Js.

(** The number of white-space-delimited tokens of a text: the number of
    its maximal runs of characters that are not white space. A token
    starts at a character that is not white space and follows white
    space or the start of the text. *)
Fixpoint count_tokens (after_ws : bool) (s : string) : nat :=
  match s with
  | EmptyString => O
  | String c r =>
      if is_ws c then count_tokens true r
      else ((if after_ws then 1 else 0) + count_tokens false r)%nat
  end.

Definition token_count (s : string) : nat := count_tokens true s.

(** "Contains no sentence-terminal punctuation". *)
Definition no_terminal_punctuation (s : string) : Prop :=
  test_class Proxy.terminal_punctuation s = false.

(** The prefix of [s] up to the closing brace that brings the nesting
    depth back to zero; [depth] counts the braces open so far. *)
Fixpoint to_matching_brace (depth : nat) (s : string) : option string :=
  match s with
  | EmptyString => None
  | String c r =>
      if Ascii.eqb c "{" then
        option_map (String c) (to_matching_brace (S depth) r)
      else if Ascii.eqb c "}" then
        match depth with
        | O => None
        | S O => Some (String c EmptyString)
        | S d => option_map (String c) (to_matching_brace d r)
        end
      else option_map (String c) (to_matching_brace depth r)
  end.

(** "The first substring that looks like a balanced JSON object": from
    the first opening brace through the closing brace that matches it. *)
Definition balanced_object (s : string) : option string :=
  match Proxy.from_first "{" s with
  | Some t => to_matching_brace 0 t
  | None => None
  end.

End Spec.

(** ** Concrete surroundings, used to instantiate the statements below *)

Module Examples.
Import Js Json Dispatcher.

Definition storage0 : Storage :=
  {| proxyUrl := None; proxyToken := None; translationCacheV1 := None |}.

Definition world0 : World :=
  {| storage := storage0; now := 1700000000000; abortAt := None;
     sent := []; fetches := [] |}.

(** A world whose abort timer fires in [d] milliseconds. *)
Definition armed_world (d : Z) : World :=
  {| storage := storage0; now := 1700000000000;
     abortAt := Some (1700000000000 + d); sent := []; fetches := [] |}.

Definition with_entries (m : gmap string CacheEntry) : World :=
  {| storage := {| proxyUrl := None; proxyToken := None;
                   translationCacheV1 := Some m |};
     now := 1700000000000; abortAt := None; sent := []; fetches := [] |}.

Definition reply_with (st : Z) (b : BodyRead) : FetchCall -> FetchBehaviour :=
  fun _ => FetchResolves 120 {| status := st; body := b |}.

Definition silent_network : FetchCall -> FetchBehaviour :=
  fun _ => FetchNeverSettles.

Definition failing_network : FetchCall -> FetchBehaviour :=
  fun _ => FetchRejects 40 {| err_name := "TypeError"; err_message := "Failed to fetch" |}.

Definition env_of (n : FetchCall -> FetchBehaviour) : Env :=
  {| network := n; storageLatency := 3 |}.

Definition request (ty : string) (t : string) : Message :=
  {| type := Some ty; text := Some t; target := None; voice := None |}.

(** A text of 10001 characters. *)
Definition long_text : string := repeat_char "a" (Z.to_nat 10001).

Definition empty_entry : CacheEntry :=
  {| translation := JStr EmptyString; ts := 1700000000000 - 1000 |}.

Definition old_entry : CacheEntry :=
  {| translation := JStr "ciao"; ts := 1700000000000 - 90000000 |}.

Definition other_entry : CacheEntry :=
  {| translation := JStr "gatto"; ts := 1700000000000 - 1000 |}.

(** The handler's surroundings: keys configured, providers answering. *)
Definition server_env : Proxy.Env :=
  {| Proxy.OPENAI_API_KEY := Some "sk-test";
     Proxy.OPENAI_MODEL := None;
     Proxy.ELEVENLABS_KEY := Some "el-test";
     Proxy.ELEVEN_API_KEY := None;
     Proxy.ELEVEN_VOICE_ID := Some "voice-1";
     Proxy.base64 := fun bytes => bytes |}.

Definition providers : Proxy.UpstreamCall -> Proxy.Upstream :=
  fun _ => Proxy.Responds 200 (inl "{}").

Definition post_of (data : string) : Proxy.Request :=
  {| Proxy.method := "POST"; Proxy.body := JSON_parse (quoted data);
     Proxy.stream := inl EmptyString |}.

End Examples.

(** ** Notions used to state further properties of the listener *)

Module Notions.
Import Js Json Dispatcher.

(** What [await resp.json().catch(() => null)] yields once the body has
    settled: the parsed body, [null] when it cannot be read or parsed. *)
Definition body_json (r : HttpResponse) : json :=
  match body r with
  | BodyText s => default JNull (JSON_parse s)
  | BodyFails _ | BodyNeverSettles => JNull
  end.

(** What [await resp.text().catch(() => '')] yields once the body has
    settled. *)
Definition body_text (r : HttpResponse) : string :=
  match body r with
  | BodyText s => s
  | BodyFails _ | BodyNeverSettles => EmptyString
  end.

(** A success payload carries something: a truthy translation, analysis,
    audio and MIME type. Failures are not concerned. *)
Definition carries_payload (r : Response) : bool :=
  match r with
  | Translation t _ => truthy t
  | Analysis a => truthy a
  | Audio a m => truthy a && truthy m
  | Failure _ _ => true
  end.

(** The network answers every call alike, with [resp], after [l]
    milliseconds, which leaves room for two accesses to the storage before
    the deadline of [ty]. *)
Definition answers_in_time (env : Env) (ty : string) (l : Z) (resp : HttpResponse) :
  Prop :=
  (forall c, network env c = FetchResolves l resp) /\
  0 <= storageLatency env /\
  l + 2 * storageLatency env < timeoutMs ty.

(** The three kinds the listener knows. *)
Definition known_kind (ty : string) : bool :=
  String.eqb ty "TRANSLATE_TEXT" || String.eqb ty "ANALYZE_TEXT" ||
  String.eqb ty "GET_TTS".

(** The headers of a call to the proxy, as the stored settings have
    them. *)
Definition headers_for (res : Storage) : list (string * string) :=
  ("Content-Type", "application/json") ::
  match proxyToken res with
  | Some t => if truthy_str t then [("x-proxy-token", t)] else []
  | None => []
  end.

(** The message passes the checks of the listener and starts the
    asynchronous body, as a request of kind [ty]. *)
Definition dispatched (message : Message) (ty : string) : Prop :=
  type message = Some ty /\ ty <> EmptyString /\
  request_text message <> EmptyString /\
  Z.of_nat (String.length (request_text message)) <= 10000.

(** The key under which the translation of the request is cached. *)
Definition request_key (message : Message) : string :=
  cacheKey (or_default (target message) "it") (request_text message).

(** The branch of the handler that serves a request of kind [ty]. *)
Definition branch_for (ty : string) : Proxy.Action :=
  if String.eqb ty "ANALYZE_TEXT" then Proxy.Analyze
  else if String.eqb ty "GET_TTS" then Proxy.Synthesize
  else Proxy.Translate.

End Notions.

(** ** The content script *)

Module Content.
Import Js Json Dispatcher.

(** *** The cooldown of the bubble *)

Definition REQUEST_COOLDOWN_MS : Z := 2000.

(** The gate at the head of the click handler of the bubble, for a click
    at [now] when [_lastRequestTime] is [last]: whether the click goes on
    to request a translation, and [_lastRequestTime] afterwards. *)
Definition click_gate (now last : Z) : bool * Z :=
  if now - last <? REQUEST_COOLDOWN_MS then (false, last) else (true, now).

(** The clicks that go on to a request, among those made at [times] in
    this order. *)
Fixpoint accepted (times : list Z) (last : Z) : list Z :=
  match times with
  | [] => []
  | now :: later =>
      match click_gate now last with
      | (true, last') => now :: accepted later last'
      | (false, last') => accepted later last'
      end
  end.

(** *** The messages the script sends *)

(** The message of the bubble for a selection, [None] when the trimmed
    selection is empty and the bubble is removed. The listener does not
    read the [context] that comes with the message. *)
Definition bubble_message (selection : string) : option Message :=
  let text := trim selection in
  if negb (truthy_str text) then None
  else Some {| type := Some "TRANSLATE_TEXT"; text := Some text;
               target := None; voice := None |}.

(** The message of the details button of the popup. *)
Definition details_message (original : string) : Message :=
  {| type := Some "ANALYZE_TEXT"; text := Some original;
     target := None; voice := None |}.

(** *** The context of the selection *)

(** [s.replace(/\s+/g, ' ')]; [skip] is set while a run of white space
    is being consumed. *)
Fixpoint collapse_go (skip : bool) (s : string) : string :=
  match s with
  | EmptyString => EmptyString
  | String c r =>
      if is_ws c then
        if skip then collapse_go true r else String " " (collapse_go true r)
      else String c (collapse_go false r)
  end.

Definition collapse_ws (s : string) : string := collapse_go false s.

(** [s.substring(a, b)] for [a <= b] *)
Definition substring (a b : nat) (s : string) : string :=
  String.substring a (b - a) s.

(** [s.indexOf(t)], [None] for -1. *)
Definition indexOf (t s : string) : option nat := String.index 0 t s.

(** An element on the way from the text node of the selection up to the
    body of the document. *)
Record Element : Type := {
  tagName : option string;
  textContent : option string
}.

Definition block_tags : list string :=
  ["P"; "DIV"; "ARTICLE"; "SECTION"; "LI"; "TD"; "TH"].

(** The [while] loop: the text of the nearest element that is a block. *)
Fixpoint block_text (chain : list Element) : string :=
  match chain with
  | [] => EmptyString
  | parentElement :: up =>
      match tagName parentElement with
      | Some tag =>
          if truthy_str tag && existsb (String.eqb tag) block_tags
          then or_default (textContent parentElement) EmptyString
          else block_text up
      | None => block_text up
      end
  end.

(** "Clean and limit context length" *)
Definition limit_context (contextText selectedText : string) : string :=
  let contextText := collapse_ws (trim contextText) in
  let len := String.length contextText in
  match indexOf selectedText contextText with
  | Some selectedIndex =>
      if (500 <? len)%nat then
        let start := (selectedIndex - 200)%nat in
        let end_ := Nat.min len (selectedIndex + String.length selectedText + 200) in
        (if (0 <? start)%nat then "..." else EmptyString) +:+
        substring start end_ contextText +:+
        (if (end_ <? len)%nat then "..." else EmptyString)
      else contextText
  | None =>
      if (500 <? len)%nat then substring 0 500 contextText +:+ "..."
      else contextText
  end.

(** [getSelectionContext(range, selectedText)], and
    [extractSelectionContext] which has the same body, for the [chain] of
    nodes from the text node of the selection (its head, whose text is
    [own]) up to the body of the document. The [catch] that returns the
    empty text when the access to the document throws is not part of
    the model. *)
Definition getSelectionContext (chain : list Element) (own : option string)
    (selectedText : string) : string :=
  let contextText := block_text chain in
  let contextText :=
    if negb (truthy_str contextText) || (String.length contextText <? 50)%nat
    then or_default own EmptyString else contextText in
  limit_context contextText selectedText.

(** *** The title of the popup *)

(** [s.lastIndexOf(' ')], [None] for -1. *)
Fixpoint lastIndexOf_space (s : string) : option nat :=
  match s with
  | EmptyString => None
  | String c r =>
      match lastIndexOf_space r with
      | Some i => Some (S i)
      | None => if Ascii.eqb c " " then Some 0%nat else None
      end
  end.

(** "Truncate long text with smart word boundary" *)
Definition displayText (original : string) : string :=
  let maxLength := 50%nat in
  if (maxLength <? String.length original)%nat then
    let truncated := substring 0 maxLength original in
    let lastSpace := lastIndexOf_space truncated in
    (match lastSpace with
     | Some lastSpace =>
         if (0 <? lastSpace)%nat then substring 0 lastSpace original else truncated
     | None => truncated
     end) +:+ "..."
  else original.

End Content.

(** ** Properties of the string primitives *)

Module JsFacts.
Import Js Spec.

Lemma split_go_length (s : string) : forall b,
  length (split_go b s) =
  (count_tokens b s + (if ends_ws b s then 1 else 0) + (if b then 0 else 1))%nat.
Proof.
  induction s as [|c r IH]; intros b; simpl.
  - destruct b; reflexivity.
  - destruct (is_ws c) eqn:Hc.
    + destruct b; simpl; rewrite IH; lia.
    + specialize (IH false). destruct (split_go false r) as [|t ts] eqn:Hs.
      * simpl in IH. lia.
      * simpl in *. rewrite IH. destruct b; lia.
Qed.

Lemma trimStart_head (s : string) c r :
  trimStart s = String c r -> is_ws c = false.
Proof.
  induction s as [|a s IH]; simpl; [discriminate|].
  destruct (is_ws a) eqn:Ha; [exact IH|].
  intros [= <- _]. exact Ha.
Qed.

Lemma trimEnd_head (s : string) c r :
  trimEnd s = String c r -> exists r', s = String c r'.
Proof.
  destruct s as [|a s]; simpl; [discriminate|].
  destruct (trimEnd s); [destruct (is_ws a)|]; intros [= <- _]; eauto.
Qed.

Lemma trimEnd_ends (s : string) : ends_ws false (trimEnd s) = false.
Proof.
  induction s as [|a s IH]; simpl; [reflexivity|].
  destruct (trimEnd s) as [|b t] eqn:Ht.
  - destruct (is_ws a) eqn:Ha; simpl; [reflexivity|]. exact Ha.
  - simpl. simpl in IH. exact IH.
Qed.

Lemma trim_head (s : string) c r : trim s = String c r -> is_ws c = false.
Proof.
  unfold trim. intros H. apply trimEnd_head in H as [r' H].
  eapply trimStart_head, H.
Qed.

Lemma trim_ends (s : string) : ends_ws false (trim s) = false.
Proof. apply trimEnd_ends. Qed.

(** On a trimmed text that is not empty, [split(/\s+/)] yields as many
    pieces as the text has tokens. *)
Lemma split_ws_trim_tokens (s : string) :
  trim s <> EmptyString ->
  length (split_ws (trim s)) = token_count (trim s).
Proof.
  intros Hne. unfold split_ws, token_count. rewrite split_go_length, trim_ends.
  destruct (trim s) as [|c r] eqn:Ht; [congruence|].
  apply trim_head in Ht. simpl. rewrite Ht. lia.
Qed.

End JsFacts.

(** ** Word or sentence (analyze path) *)

Module ClassifyProps.
Import Js Json Proxy Spec JsFacts.

(** C8, as amended. For every text whose trimmed form is not empty, the
    analyze path classifies it as a single word if and only if the trimmed
    text has exactly one white-space-delimited token and contains none of
    the characters [.], [!], [?], [;]; every other such text is a
    sentence. "serendipity" is a word, "The cat sat." a sentence. *)
Theorem C8_isSingleWord_tokens :
  (forall text, trim text <> EmptyString ->
     (isSingleWord text = true <->
      token_count (trim text) = 1%nat /\ no_terminal_punctuation (trim text))) /\
  isSingleWord "serendipity" = true /\
  isSingleWord "The cat sat." = false.
Proof.
  split; [|split; reflexivity].
  intros text Hne. unfold isSingleWord, no_terminal_punctuation.
  rewrite split_ws_trim_tokens by exact Hne.
  rewrite andb_true_iff, negb_true_iff, Nat.eqb_eq. reflexivity.
Qed.

Lemma C8_isSingleWord_tokens_witness :
  (isSingleWord "  serendipity " = true <->
   token_count (trim "  serendipity ") = 1%nat /\
   no_terminal_punctuation (trim "  serendipity ")) /\
  (isSingleWord "The cat sat." = true <->
   token_count (trim "The cat sat.") = 1%nat /\
   no_terminal_punctuation (trim "The cat sat.")).
Proof.
  split.
  - apply (proj1 C8_isSingleWord_tokens "  serendipity "). discriminate.
  - apply (proj1 C8_isSingleWord_tokens "The cat sat."). discriminate.
Defined.

(** C8 as stated fails on a text of white space only, which the handler
    accepts ([!text] is false for it): its trimmed form is empty and has no
    token, yet [split] yields one (empty) piece and the text is classified
    as a single word. *)
Lemma C8_counterexample :
  trim " " = EmptyString /\
  token_count (trim " ") = 0%nat /\
  split_ws (trim " ") = [EmptyString] /\
  isSingleWord " " = true /\
  ~ (isSingleWord " " = true <->
     token_count (trim " ") = 1%nat /\ no_terminal_punctuation (trim " ")).
Proof.
  repeat split; try reflexivity.
  intros [H _]. destruct (H eq_refl) as [Hc _]. vm_compute in Hc. discriminate.
Qed.

End ClassifyProps.

(** ** Properties of the JSON parser *)

Module JsonFacts.
Import Js Json.

Lemma skip_ws_app (s t : string) :
  skip_ws s <> EmptyString -> skip_ws (s +:+ t) = skip_ws s +:+ t.
Proof.
  induction s as [|c s IH]; simpl; [congruence|].
  destruct (is_jws c); [exact IH|reflexivity].
Qed.

Lemma skip_ws_blank (s t : string) :
  skip_ws s = EmptyString -> skip_ws (s +:+ t) = skip_ws t.
Proof.
  induction s as [|c s IH]; simpl; [reflexivity|].
  destruct (is_jws c); [exact IH|discriminate].
Qed.

Lemma strip_prefix_app (p s t r : string) :
  strip_prefix p s = Some r -> strip_prefix p (s +:+ t) = Some (r +:+ t).
Proof.
  revert s. induction p as [|a p IH]; intros s; simpl.
  - intros [= ->]. reflexivity.
  - destruct s as [|b s]; [discriminate|]. simpl.
    destruct (Ascii.eqb a b); [apply IH|discriminate].
Qed.

Lemma digits_app (s t : string) : forall acc cnt a n r,
  digits acc cnt s = (a, n, r) -> r <> EmptyString ->
  digits acc cnt (s +:+ t) = (a, n, r +:+ t).
Proof.
  induction s as [|c s IH]; intros acc cnt a n r; simpl.
  - intros [= <- <- <-]. congruence.
  - destruct (digit c) as [d|].
    + apply IH.
    + intros [= <- <- <-] _. reflexivity.
Qed.

Lemma parse_exponent_app (s t : string) e r :
  parse_exponent s = Some (e, r) -> r <> EmptyString ->
  parse_exponent (s +:+ t) = Some (e, r +:+ t).
Proof.
  destruct s as [|c s]; simpl.
  - intros [= <- <-]. congruence.
  - destruct (Ascii.eqb c "e" || Ascii.eqb c "E").
    + destruct s as [|d s']; simpl.
      * discriminate.
      * destruct (Ascii.eqb d "+"); [|destruct (Ascii.eqb d "-")].
        -- destruct (digits 0 0 s') as [[x n] r2] eqn:Hd.
           destruct (n =? 0) eqn:Hn; [discriminate|]. intros [= <- <-] Hr.
           rewrite (digits_app s' t 0 0 x n r2 Hd Hr), Hn. reflexivity.
        -- destruct (digits 0 0 s') as [[x n] r2] eqn:Hd.
           destruct (n =? 0) eqn:Hn; [discriminate|]. intros [= <- <-] Hr.
           rewrite (digits_app s' t 0 0 x n r2 Hd Hr), Hn. reflexivity.
        -- destruct (digits 0 0 (String d s')) as [[x n] r2] eqn:Hd.
           destruct (n =? 0) eqn:Hn; [discriminate|]. intros [= <- <-] Hr.
           change (String d (s' +:+ t)) with (String d s' +:+ t).
           rewrite (digits_app (String d s') t 0 0 x n r2 Hd Hr), Hn. reflexivity.
    + intros [= <- <-] _. reflexivity.
Qed.

Lemma parse_fraction_app (ip : Z) (s t : string) m k r :
  parse_fraction ip s = Some (m, k, r) -> r <> EmptyString ->
  parse_fraction ip (s +:+ t) = Some (m, k, r +:+ t).
Proof.
  destruct s as [|c s]; simpl.
  - intros [= <- <- <-]. congruence.
  - destruct (Ascii.eqb c ".").
    + destruct (digits ip 0 s) as [[x n] r2] eqn:Hd.
      destruct (n =? 0) eqn:Hn; [discriminate|]. intros [= <- <- <-] Hr.
      rewrite (digits_app s t ip 0 x n r2 Hd Hr), Hn. reflexivity.
    + intros [= <- <- <-] _. reflexivity.
Qed.

Lemma parse_exponent_rest (s : string) e r :
  parse_exponent s = Some (e, r) -> r <> EmptyString -> s <> EmptyString.
Proof. destruct s; [intros [= <- <-]; congruence|discriminate]. Qed.

Lemma parse_fraction_rest (ip : Z) (s : string) m k r :
  parse_fraction ip s = Some (m, k, r) -> r <> EmptyString -> s <> EmptyString.
Proof. destruct s; [intros [= <- <- <-]; congruence|discriminate]. Qed.

Lemma parse_number_app (s t : string) v r :
  parse_number s = Some (v, r) -> r <> EmptyString ->
  parse_number (s +:+ t) = Some (v, r +:+ t).
Proof.
  assert (Hbody : forall neg s1,
    match s1 with
    | String c r0 =>
        match digit c with
        | None => None
        | Some d =>
            let '(ip, _, s2) := if d =? 0 then (0, 1, r0) else digits d 1 r0 in
            match parse_fraction ip s2 with
            | None => None
            | Some (m, k, s3) =>
                match parse_exponent s3 with
                | None => None
                | Some (e, s4) =>
                    Some (JNum (if neg : bool then - m else m) (e - k), s4)
                end
            end
        end
    | EmptyString => None
    end = Some (v, r) -> r <> EmptyString ->
    match s1 +:+ t with
    | String c r0 =>
        match digit c with
        | None => None
        | Some d =>
            let '(ip, _, s2) := if d =? 0 then (0, 1, r0) else digits d 1 r0 in
            match parse_fraction ip s2 with
            | None => None
            | Some (m, k, s3) =>
                match parse_exponent s3 with
                | None => None
                | Some (e, s4) =>
                    Some (JNum (if neg : bool then - m else m) (e - k), s4)
                end
            end
        end
    | EmptyString => None
    end = Some (v, r +:+ t)).
  { intros neg [|c r0]; simpl; [discriminate|].
    destruct (digit c) as [d|]; [|discriminate].
    destruct (d =? 0).
    - destruct (parse_fraction 0 r0) as [[[m k] s3]|] eqn:Hf; [|discriminate].
      destruct (parse_exponent s3) as [[e s4]|] eqn:He; [|discriminate].
      intros [= <- <-] Hr.
      pose proof (parse_exponent_rest s3 e s4 He Hr) as H3.
      rewrite (parse_fraction_app 0 r0 t m k s3 Hf H3).
      rewrite (parse_exponent_app s3 t e s4 He Hr). reflexivity.
    - destruct (digits d 1 r0) as [[ip n] s2] eqn:Hd.
      destruct (parse_fraction ip s2) as [[[m k] s3]|] eqn:Hf; [|discriminate].
      destruct (parse_exponent s3) as [[e s4]|] eqn:He; [|discriminate].
      intros [= <- <-] Hr.
      pose proof (parse_exponent_rest s3 e s4 He Hr) as H3.
      pose proof (parse_fraction_rest ip s2 m k s3 Hf H3) as H2.
      rewrite (digits_app r0 t d 1 ip n s2 Hd H2).
      rewrite (parse_fraction_app ip s2 t m k s3 Hf H3).
      rewrite (parse_exponent_app s3 t e s4 He Hr). reflexivity. }
  unfold parse_number. destruct s as [|c s]; simpl; [discriminate|].
  destruct (Ascii.eqb c "-").
  - apply (Hbody true s).
  - apply (Hbody false (String c s)).
Qed.

Lemma cons_char_app (c : ascii) (o o' : option (string * string)) t x r :
  (forall x' r', o = Some (x', r') -> o' = Some (x', r' +:+ t)) ->
  cons_char c o = Some (x, r) -> cons_char c o' = Some (x, r +:+ t).
Proof.
  intros H. destruct o as [[x' r']|]; simpl; [|discriminate].
  intros [= <- <-]. rewrite (H x' r' eq_refl). reflexivity.
Qed.

(** A string literal ends at its closing quote, whatever follows. *)
Lemma parse_chars_app (t : string) : forall n s x r,
  (String.length s <= n)%nat ->
  parse_chars s = Some (x, r) -> parse_chars (s +:+ t) = Some (x, r +:+ t).
Proof.
  induction n as [|n IH]; intros s x r Hn.
  - destruct s; [discriminate|simpl in Hn; lia].
  - destruct s as [|c s]; [discriminate|]. simpl in Hn. simpl.
    destruct (Ascii.eqb c dq); [intros [= <- <-]; reflexivity|].
    destruct (Ascii.eqb c "\").
    + destruct s as [|e s1]; [discriminate|]. simpl in Hn. simpl.
      destruct (escape e) as [ch|].
      * apply cons_char_app. intros x' r'. apply IH. lia.
      * destruct (Ascii.eqb e "u"); [|discriminate].
        destruct s1 as [|h1 [|h2 [|h3 [|h4 s2]]]]; try discriminate.
        simpl in Hn. simpl.
        destruct (hex h1) as [[|?]|]; try discriminate.
        destruct (hex h2) as [[|?]|]; try discriminate.
        destruct (hex h3) as [a|]; try discriminate.
        destruct (hex h4) as [b|]; try discriminate.
        apply cons_char_app. intros x' r'. apply IH. lia.
    + destruct (N_of_ascii c <? 32)%N; [discriminate|].
      apply cons_char_app. intros x' r'. apply IH. lia.
Qed.

Lemma digit_not (c a : ascii) d :
  digit c = Some d -> digit a = None -> Ascii.eqb a c = false.
Proof.
  intros Hc Ha. destruct (Ascii.eqb a c) eqn:E; [|reflexivity].
  apply Ascii.eqb_eq in E as ->. congruence.
Qed.

Lemma parse_number_is_number (s : string) v r :
  parse_number s = Some (v, r) -> is_number v = true.
Proof.
  assert (Hbody : forall (neg : bool) s1,
    match s1 with
    | String c r0 =>
        match digit c with
        | None => None
        | Some d =>
            let '(ip, _, s2) := if d =? 0 then (0, 1, r0) else digits d 1 r0 in
            match parse_fraction ip s2 with
            | None => None
            | Some (m, k, s3) =>
                match parse_exponent s3 with
                | None => None
                | Some (e, s4) =>
                    Some (JNum (if neg then - m else m) (e - k), s4)
                end
            end
        end
    | EmptyString => None
    end = Some (v, r) -> is_number v = true).
  { intros neg [|c r0]; [discriminate|].
    destruct (digit c) as [d|]; [|discriminate].
    destruct (if d =? 0 then (0, 1, r0) else digits d 1 r0) as [[ip n] s2].
    destruct (parse_fraction ip s2) as [[[m k] s3]|]; [|discriminate].
    destruct (parse_exponent s3) as [[e s4]|]; [|discriminate].
    intros [= <- _]. reflexivity. }
  unfold parse_number. destruct s as [|c s]; [discriminate|].
  destruct (Ascii.eqb c "-"); [apply (Hbody true s)|apply (Hbody false (String c s))].
Qed.

Lemma strip_prefix_head (a b : ascii) (p s r : string) :
  strip_prefix (String a p) (String b s) = Some r -> a = b.
Proof.
  cbn [strip_prefix]. destruct (Ascii.eqb a b) eqn:E; [|discriminate].
  intros _. apply Ascii.eqb_eq, E.
Qed.

Lemma strip_prefix_other (a b : ascii) (p s : string) :
  Ascii.eqb a b = false -> strip_prefix (String a p) (String b s) = None.
Proof. intros E. cbn [strip_prefix]. rewrite E. reflexivity. Qed.

(** A number that is followed by something, and a literal in any case,
    are read the same whatever is appended. *)
Lemma parse_scalar_app (s t : string) v r :
  parse_scalar s = Some (v, r) ->
  r <> EmptyString \/ is_number v = false ->
  parse_scalar (s +:+ t) = Some (v, r +:+ t).
Proof.
  unfold parse_scalar.
  destruct (strip_prefix "true" s) as [r1|] eqn:H1.
  { intros [= <- <-] _. rewrite (strip_prefix_app _ _ t _ H1). reflexivity. }
  destruct s as [|c s']; [discriminate|].
  change (String c s' +:+ t) with (String c (s' +:+ t)).
  destruct (strip_prefix "false" (String c s')) as [r2|] eqn:H2.
  { intros [= <- <-] _.
    pose proof (strip_prefix_app _ _ t _ H2) as H2'.
    change (String c s' +:+ t) with (String c (s' +:+ t)) in H2'.
    apply strip_prefix_head in H2 as <-.
    rewrite strip_prefix_other by reflexivity. rewrite H2'. reflexivity. }
  destruct (strip_prefix "null" (String c s')) as [r3|] eqn:H3.
  { intros [= <- <-] _.
    pose proof (strip_prefix_app _ _ t _ H3) as H3'.
    change (String c s' +:+ t) with (String c (s' +:+ t)) in H3'.
    apply strip_prefix_head in H3 as <-.
    rewrite !strip_prefix_other by reflexivity. rewrite H3'. reflexivity. }
  intros Hn Hr.
  assert (Hne : r <> EmptyString).
  { destruct Hr as [Hr|Hr]; [exact Hr|].
    rewrite (parse_number_is_number _ v r Hn) in Hr. discriminate. }
  pose proof (parse_number_app _ t v r Hn Hne) as Hn'.
  change (String c s' +:+ t) with (String c (s' +:+ t)) in Hn'.
  assert (Hc : Ascii.eqb c "-" = true \/ exists d, digit c = Some d).
  { unfold parse_number in Hn. destruct (Ascii.eqb c "-"); [left; reflexivity|].
    right. destruct (digit c) as [d|]; [eauto|discriminate]. }
  assert (Ht : Ascii.eqb "t" c = false /\ Ascii.eqb "f" c = false /\
               Ascii.eqb "n" c = false).
  { destruct Hc as [Hc|[d Hd]].
    - apply Ascii.eqb_eq in Hc as ->. repeat split.
    - repeat split; apply (digit_not c _ d Hd); reflexivity. }
  destruct Ht as (Ht & Hf & Hnl).
  rewrite (strip_prefix_other _ _ _ _ Ht), (strip_prefix_other _ _ _ _ Hf),
    (strip_prefix_other _ _ _ _ Hnl).
  exact Hn'.
Qed.

Lemma skip_ws_cons_app (s t : string) c r :
  skip_ws s = String c r -> skip_ws (s +:+ t) = String c (r +:+ t).
Proof.
  intros H. rewrite skip_ws_app by (rewrite H; discriminate).
  rewrite H. reflexivity.
Qed.

Lemma parse_value_nonempty (f : nat) v r : parse_value f EmptyString <> Some (v, r).
Proof. destruct f; discriminate. Qed.

(** What the parser reads from a text, it reads from any extension of
    the text, with any larger fuel: a value (a number only when something
    follows it), the elements of an array, the members of an object. *)
Lemma parse_app (t : string) : forall f,
  (forall f' s v r, (f <= f')%nat ->
     parse_value f s = Some (v, r) ->
     r <> EmptyString \/ is_number v = false ->
     parse_value f' (s +:+ t) = Some (v, r +:+ t)) /\
  (forall f' s l r, (f <= f')%nat ->
     parse_elements f s = Some (l, r) ->
     parse_elements f' (s +:+ t) = Some (l, r +:+ t)) /\
  (forall f' s l r, (f <= f')%nat ->
     parse_members f s = Some (l, r) ->
     parse_members f' (s +:+ t) = Some (l, r +:+ t)).
Proof.
  induction f as [|f (IHv & IHe & IHm)]; [repeat split; discriminate|].
  split; [|split]; intros [|f'] s; intros ? r Hle; try lia;
    assert (Hf : (f <= f')%nat) by lia; clear Hle.
  - (* values *)
    destruct s as [|c s]; [discriminate|].
    change (String c s +:+ t) with (String c (s +:+ t)).
    cbn [parse_value].
    destruct (Ascii.eqb c "{").
    { destruct (skip_ws s) as [|c' r'] eqn:Hs; [discriminate|].
      rewrite (skip_ws_cons_app s t c' r' Hs).
      destruct (Ascii.eqb c' "}"); [intros [= <- <-] _; reflexivity|].
      destruct (parse_members f (String c' r')) as [[l r2]|] eqn:Hm; [|discriminate].
      intros [= <- <-] _.
      pose proof (IHm f' _ _ _ Hf Hm) as Hm'.
      change (String c' r' +:+ t) with (String c' (r' +:+ t)) in Hm'.
      rewrite Hm'. reflexivity. }
    destruct (Ascii.eqb c "[").
    { destruct (skip_ws s) as [|c' r'] eqn:Hs; [discriminate|].
      rewrite (skip_ws_cons_app s t c' r' Hs).
      destruct (Ascii.eqb c' "]"); [intros [= <- <-] _; reflexivity|].
      destruct (parse_elements f (String c' r')) as [[l r2]|] eqn:He; [|discriminate].
      intros [= <- <-] _.
      pose proof (IHe f' _ _ _ Hf He) as He'.
      change (String c' r' +:+ t) with (String c' (r' +:+ t)) in He'.
      rewrite He'. reflexivity. }
    destruct (Ascii.eqb c dq).
    { destruct (parse_chars s) as [[x r']|] eqn:Hc; [|discriminate].
      intros [= <- <-] _.
      rewrite (parse_chars_app t _ s x r' (le_n _) Hc). reflexivity. }
    intros Hp Hr.
    pose proof (parse_scalar_app (String c s) t _ _ Hp Hr) as Hp'.
    change (String c s +:+ t) with (String c (s +:+ t)) in Hp'. exact Hp'.
  - (* elements *)
    cbn [parse_elements].
    destruct (parse_value f (skip_ws s)) as [[v r1]|] eqn:Hv; [|discriminate].
    destruct (skip_ws s) as [|c0 s0] eqn:Hs.
    { exfalso. exact (parse_value_nonempty f v r1 Hv). }
    rewrite (skip_ws_cons_app s t c0 s0 Hs).
    destruct (skip_ws r1) as [|c r'] eqn:Hr1; [discriminate|].
    assert (Hne : r1 <> EmptyString) by (intros ->; discriminate Hr1).
    pose proof (IHv f' _ _ _ Hf Hv (or_introl Hne)) as Hv'.
    change (String c0 s0 +:+ t) with (String c0 (s0 +:+ t)) in Hv'.
    rewrite Hv', (skip_ws_cons_app r1 t c r' Hr1).
    destruct (Ascii.eqb c ",").
    + destruct (parse_elements f r') as [[vs r2]|] eqn:He; [|discriminate].
      intros [= <- <-]. rewrite (IHe f' _ _ _ Hf He). reflexivity.
    + destruct (Ascii.eqb c "]"); [|discriminate].
      intros [= <- <-]. reflexivity.
  - (* members *)
    cbn [parse_members].
    destruct (skip_ws s) as [|q r0] eqn:Hs; [discriminate|].
    rewrite (skip_ws_cons_app s t q r0 Hs).
    destruct (Ascii.eqb q dq); [|discriminate].
    destruct (parse_chars r0) as [[k r1]|] eqn:Hc; [|discriminate].
    rewrite (parse_chars_app t _ r0 k r1 (le_n _) Hc).
    destruct (skip_ws r1) as [|c r2] eqn:Hr1; [discriminate|].
    rewrite (skip_ws_cons_app r1 t c r2 Hr1).
    destruct (Ascii.eqb c ":"); [|discriminate].
    destruct (parse_value f (skip_ws r2)) as [[v r3]|] eqn:Hv; [|discriminate].
    destruct (skip_ws r2) as [|c2 s2] eqn:Hs2.
    { exfalso. exact (parse_value_nonempty f v r3 Hv). }
    rewrite (skip_ws_cons_app r2 t c2 s2 Hs2).
    destruct (skip_ws r3) as [|c' r4] eqn:Hr3; [discriminate|].
    assert (Hne : r3 <> EmptyString) by (intros ->; discriminate Hr3).
    pose proof (IHv f' _ _ _ Hf Hv (or_introl Hne)) as Hv'.
    change (String c2 s2 +:+ t) with (String c2 (s2 +:+ t)) in Hv'.
    rewrite Hv', (skip_ws_cons_app r3 t c' r4 Hr3).
    destruct (Ascii.eqb c' ",").
    + destruct (parse_members f r4) as [[l' r5]|] eqn:Hm; [|discriminate].
      intros [= <- <-]. rewrite (IHm f' _ _ _ Hf Hm). reflexivity.
    + destruct (Ascii.eqb c' "}"); [|discriminate].
      intros [= <- <-]. reflexivity.
Qed.

Lemma length_app_le (s t : string) :
  (String.length s <= String.length (s +:+ t))%nat.
Proof. induction s as [|c s IH]; simpl; lia. Qed.

(** A text that parses to something other than a number no longer parses
    once anything but white space is appended to it. *)
Lemma JSON_parse_trailing (s t : string) (v : json) :
  JSON_parse s = Some v -> is_number v = false ->
  skip_ws t <> EmptyString ->
  JSON_parse (s +:+ t) = None.
Proof.
  unfold JSON_parse. intros Hp Hv Ht.
  destruct (parse_value (2 * String.length s + 2) (skip_ws s)) as [[v' r]|] eqn:Hs;
    [|discriminate].
  destruct (skip_ws r) eqn:Hr; [|discriminate]. injection Hp as ->.
  destruct (skip_ws s) as [|c0 s0] eqn:Hs0.
  { exfalso. exact (parse_value_nonempty _ _ _ Hs). }
  rewrite (skip_ws_cons_app s t c0 s0 Hs0).
  pose proof (length_app_le s t) as Hlen.
  pose proof (proj1 (parse_app t (2 * String.length s + 2))
                (2 * String.length (s +:+ t) + 2)%nat _ _ _
                ltac:(lia) Hs (or_intror Hv)) as Hs'.
  change (String c0 s0 +:+ t) with (String c0 (s0 +:+ t)) in Hs'.
  rewrite Hs', (skip_ws_blank r t Hr).
  destruct (skip_ws t); [congruence|reflexivity].
Qed.

(** A text that starts with an opening brace parses to an object, if it
    parses at all. *)
Lemma JSON_parse_brace (o : string) (v : json) :
  JSON_parse (String "{" o) = Some v -> is_number v = false.
Proof.
  unfold JSON_parse. cbn [skip_ws is_jws].
  change (is_jws "{") with false. cbv iota.
  destruct (2 * String.length (String "{" o) + 2)%nat as [|f]; [discriminate|].
  cbn [parse_value]. change (Ascii.eqb "{" "{") with true. cbv iota.
  destruct (skip_ws o) as [|c' r']; [discriminate|].
  destruct (Ascii.eqb c' "}").
  - destruct (skip_ws r'); [|discriminate]. intros [= <-]. reflexivity.
  - destruct (parse_members f (String c' r')) as [[l r2]|]; [|discriminate].
    destruct (skip_ws r2); [|discriminate]. intros [= <-]. reflexivity.
Qed.

Lemma skip_ws_occurs (c : ascii) (s : string) :
  is_jws c = false -> occurs c s = true -> skip_ws s <> EmptyString.
Proof.
  intros Hc. unfold occurs. induction s as [|a s IH]; simpl; [discriminate|].
  destruct (is_jws a) eqn:Ha; [|discriminate].
  destruct (Ascii.eqb a c) eqn:E; [|exact IH].
  apply Ascii.eqb_eq in E as ->. congruence.
Qed.

End JsonFacts.

(** ** The result cache *)

Module CacheProps.
Import Js Json Dispatcher Examples.

Ltac run_cache :=
  unfold result, exec, getCachedTranslation, setCachedTranslation, storage_get,
    storage_set_cache, Date_now, sleep, modify, get_world, age_at_read,
    mbind, M_bind, mret, M_ret in *;
  simpl in *.

(** What a write leaves in the store: the translation, stamped with the
    clock at the moment the stored map was read. *)
Lemma put_stores (env : Env) (k : string) (v : json) (w : World) :
  translationCacheV1 (storage (exec (setCachedTranslation env k v) w)) =
  Some (<[k := {| translation := v; ts := now w + storageLatency env |}]>
          (cache_of (storage w))).
Proof. run_cache. reflexivity. Qed.

(** A read of an entry that is not older than the TTL returns its
    translation and leaves the store alone. *)
Lemma get_fresh (env : Env) (k : string) (w : World) (e : CacheEntry) :
  cache_of (storage w) !! k = Some e ->
  age_at_read env w e <= CACHE_TTL_MS ->
  result (getCachedTranslation env k) w = Done (Some (translation e)) /\
  storage (exec (getCachedTranslation env k) w) = storage w.
Proof.
  intros Hk Hage. run_cache. rewrite Hk. simpl.
  destruct (Z.gtb_spec (now w + storageLatency env - ts e) CACHE_TTL_MS); [lia|].
  split; reflexivity.
Qed.

(** A read of an entry older than the TTL returns [null] and writes the
    map back without it. *)
Lemma get_expired (env : Env) (k : string) (w : World) (e : CacheEntry) :
  cache_of (storage w) !! k = Some e ->
  age_at_read env w e > CACHE_TTL_MS ->
  result (getCachedTranslation env k) w = Done None /\
  translationCacheV1 (storage (exec (getCachedTranslation env k) w)) =
  Some (delete k (cache_of (storage w))).
Proof.
  intros Hk Hage. run_cache. rewrite Hk. simpl.
  destruct (Z.gtb_spec (now w + storageLatency env - ts e) CACHE_TTL_MS); [|lia].
  split; reflexivity.
Qed.

(** A read of a key that has no entry returns [null]. *)
Lemma get_absent (env : Env) (k : string) (w : World) :
  cache_of (storage w) !! k = None ->
  result (getCachedTranslation env k) w = Done None /\
  storage (exec (getCachedTranslation env k) w) = storage w.
Proof. intros Hk. run_cache. rewrite Hk. split; reflexivity. Qed.

(** C4. A write of [v] under [k] followed by a read of [k] returns [v]
    whenever the stored entry is at most 24 hours old when the read
    compares its age; a read that finds an entry older than 24 hours
    returns [null] and removes the entry from the store, where an
    inspection no longer finds the key. *)
Theorem C4_cache_round_trip (env : Env) (k : string) (v : json) :
  (forall w w' e,
     storage w' = storage (exec (setCachedTranslation env k v) w) ->
     cache_of (storage w') !! k = Some e ->
     age_at_read env w' e <= CACHE_TTL_MS ->
     result (getCachedTranslation env k) w' = Done (Some v)) /\
  (forall w e,
     cache_of (storage w) !! k = Some e ->
     age_at_read env w e > CACHE_TTL_MS ->
     result (getCachedTranslation env k) w = Done None /\
     cache_of (storage (exec (getCachedTranslation env k) w)) !! k = None).
Proof.
  split.
  - intros w w' e Hst Hk Hage.
    pose proof (put_stores env k v w) as Hput. rewrite <- Hst in Hput.
    assert (He : translation e = v).
    { unfold cache_of in Hk. rewrite Hput, lookup_insert_eq in Hk.
      injection Hk as <-. reflexivity. }
    rewrite <- He. apply (get_fresh env k w' e Hk Hage).
  - intros w e Hk Hage.
    destruct (get_expired env k w e Hk Hage) as [Hr Hs].
    split; [exact Hr|]. unfold cache_of at 1. rewrite Hs. apply lookup_delete_eq.
Qed.

(** The round trip of ["ciao"] one hour later, and the purge of an entry
    written twenty-five hours before the read. *)
Lemma C4_cache_round_trip_witness :
  result (getCachedTranslation (env_of silent_network) "t:it|hello")
    (elapse 3600000
       (exec (setCachedTranslation (env_of silent_network) "t:it|hello" (JStr "ciao"))
          world0))
  = Done (Some (JStr "ciao")) /\
  (result (getCachedTranslation (env_of silent_network) "t:it|hello")
     (with_entries {[ "t:it|hello" := old_entry ]}) = Done None /\
   cache_of (storage (exec (getCachedTranslation (env_of silent_network) "t:it|hello")
                        (with_entries {[ "t:it|hello" := old_entry ]})))
     !! "t:it|hello" = None).
Proof.
  split.
  - apply (proj1 (C4_cache_round_trip (env_of silent_network) "t:it|hello" (JStr "ciao"))
             world0 _
             {| translation := JStr "ciao"; ts := 1700000000003 |}).
    + reflexivity.
    + vm_compute. reflexivity.
    + vm_compute. discriminate.
  - apply (proj2 (C4_cache_round_trip (env_of silent_network) "t:it|hello" (JStr "ciao"))
             _ old_entry).
    + vm_compute. reflexivity.
    + vm_compute. reflexivity.
Defined.

(** C9. When a read of [k] finds an expired entry, the map written back
    differs from the stored one at [k] only: every other key keeps its
    entry, translation and timestamp included, and the proxy settings kept
    in the same storage are not touched. *)
Theorem C9_purge_frame (env : Env) (k : string) (w : World) (e : CacheEntry) :
  cache_of (storage w) !! k = Some e ->
  age_at_read env w e > CACHE_TTL_MS ->
  (forall k', k' <> k ->
     cache_of (storage (exec (getCachedTranslation env k) w)) !! k' =
     cache_of (storage w) !! k') /\
  proxyUrl (storage (exec (getCachedTranslation env k) w)) = proxyUrl (storage w) /\
  proxyToken (storage (exec (getCachedTranslation env k) w)) = proxyToken (storage w).
Proof.
  intros Hk Hage.
  destruct (get_expired env k w e Hk Hage) as [_ Hs].
  split.
  - intros k' Hne. unfold cache_of at 1. rewrite Hs.
    apply lookup_delete_ne. congruence.
  - run_cache. rewrite Hk. simpl.
    destruct (Z.gtb_spec (now w + storageLatency env - ts e) CACHE_TTL_MS); [|lia].
    split; reflexivity.
Qed.

Lemma C9_purge_frame_witness :
  cache_of (storage (exec (getCachedTranslation (env_of silent_network) "t:it|hello")
                       (with_entries (<["t:it|hello" := old_entry]>
                                        {[ "t:it|cat" := other_entry ]}))))
    !! "t:it|cat" = Some other_entry.
Proof.
  assert (Hk : cache_of (storage (with_entries (<["t:it|hello" := old_entry]>
                                     {[ "t:it|cat" := other_entry ]})))
               !! "t:it|hello" = Some old_entry) by apply lookup_insert_eq.
  assert (Hage : age_at_read (env_of silent_network)
                   (with_entries (<["t:it|hello" := old_entry]>
                                    {[ "t:it|cat" := other_entry ]})) old_entry
                 > CACHE_TTL_MS) by reflexivity.
  rewrite (proj1 (C9_purge_frame _ _ _ _ Hk Hage) "t:it|cat"); [|discriminate].
  cbv [cache_of with_entries storage translationCacheV1].
  rewrite lookup_insert_ne by discriminate. apply lookup_singleton_eq.
Defined.

End CacheProps.

(** ** A weakest-precondition calculus for the promise monad *)

Module Wp.
Import Js Json Dispatcher.

Lemma wp_ret {A} (a : A) Q w : wp (mret a) Q w = Q (Done a) w.
Proof. reflexivity. Qed.

Lemma wp_bind {A B} (m : M A) (f : A -> M B) Q w :
  wp (m ≫= f) Q w =
  wp m (fun o w' =>
          match o with
          | Done a => wp (f a) Q w'
          | Thrown e => Q (Thrown e) w'
          | Pending => Q Pending w'
          end) w.
Proof.
  unfold wp, result, exec, mbind, M_bind.
  destruct (m w) as [[a|e|] w']; reflexivity.
Qed.

Lemma wp_throw {A} (e : JsError) (Q : Outcome A -> World -> Prop) w :
  wp (throw e) Q w = Q (Thrown e) w.
Proof. reflexivity. Qed.

Lemma wp_never {A} (Q : Outcome A -> World -> Prop) w :
  wp never Q w = Q Pending w.
Proof. reflexivity. Qed.

Lemma wp_try {A} (m : M A) (h : JsError -> M A) Q w :
  wp (try_catch m h) Q w =
  wp m (fun o w' =>
          match o with
          | Thrown e => wp (h e) Q w'
          | Done a => Q (Done a) w'
          | Pending => Q Pending w'
          end) w.
Proof.
  unfold wp, result, exec, try_catch.
  destruct (m w) as [[a|e|] w']; reflexivity.
Qed.

Lemma wp_modify (f : World -> World) Q w :
  wp (modify f) Q w = Q (Done tt) (f w).
Proof. reflexivity. Qed.

Lemma wp_get_world Q w : wp get_world Q w = Q (Done w) w.
Proof. reflexivity. Qed.

Lemma wp_detached {A} (m : M A) Q w :
  wp (detached m) Q w = wp m (fun _ w' => Q (Done tt) w') w.
Proof. reflexivity. Qed.

(** Symbolic execution: unfold the next operation, push the
    postcondition through it, and split on the condition it tests. *)
Ltac wp_prim :=
  first
    [ rewrite wp_bind | rewrite wp_ret | rewrite wp_throw | rewrite wp_never
    | rewrite wp_try | rewrite wp_modify | rewrite wp_get_world
    | rewrite wp_detached ].

Ltac wp_unfold :=
  progress unfold dispatch, translate_text, analyze_text, get_tts, on_error, post,
    respond_proxy_error, read_json, resp_json, resp_text, fetch, log_fetch,
    clearTimeout, setTimeout_abort, sendResponse, storage_set_cache, storage_get,
    getProxyConfig, getCachedTranslation, setCachedTranslation, Date_now, sleep.

Ltac wp_case :=
  lazymatch goal with
  | |- wp (match ?x with _ => _ end) _ _ => destruct x eqn:?
  | |- wp (if ?x then _ else _) _ _ => destruct x eqn:?
  end.

Ltac wp_world :=
  progress cbn [storage now abortAt sent fetches elapse with_cache time_left
                  proxyUrl proxyToken translationCacheV1] in *.

Ltac wp_run :=
  repeat first [ wp_prim | wp_world | wp_unfold | wp_case | progress cbv beta iota ].

End Wp.

Module DispatchProps.
Import Js Json Dispatcher Examples Wp.

Lemma truthy_str_ne (s : string) : s <> EmptyString -> truthy_str s = true.
Proof. destruct s; [congruence|reflexivity]. Qed.

(** A message whose kind is present and whose trimmed text passes the
    two checks starts the asynchronous body, and the listener returns
    [true]. *)
Lemma listener_dispatches (env : Env) (message : Message) (ty : string) (w : World) :
  type message = Some ty -> ty <> EmptyString ->
  request_text message <> EmptyString ->
  Z.of_nat (String.length (request_text message)) <= 10000 ->
  listener env (Some message) w =
  run (Some true) (dispatch env ty message (request_text message)) w.
Proof.
  intros Hty Hne Htxt Hlen. unfold listener. rewrite Hty. simpl.
  rewrite (truthy_str_ne ty Hne). simpl.
  rewrite (truthy_str_ne _ Htxt). simpl.
  destruct (Z.gtb_spec (Z.of_nat (String.length (request_text message))) 10000);
    [lia|reflexivity].
Qed.

(** Whatever the kind, the text and the world, the asynchronous body
    completes and answers exactly once, provided the body of a response
    that starts to arrive can be read to its end or fails. *)
Lemma dispatch_answers_once (env : Env) (message : Message) (ty text : string)
    (w : World) :
  body_settles env ->
  wp (dispatch env ty message text)
     (fun o w' => o = Done tt /\ exists r, sent w' = sent w ++ [r]) w.
Proof.
  intros Hbody. wp_run.
  all: try (split; [reflexivity|eexists; reflexivity]).
  all: try discriminate.
  all: match goal with
       | H : network _ _ = FetchResolves _ ?r, H' : body ?r = BodyNeverSettles |- _ =>
           exfalso; exact (Hbody _ _ _ H H')
       end.
Qed.

(** C1, as amended. For every message that carries a kind (an
    unrecognized one included), the listener keeps the channel open and
    answers exactly once, with a success payload or a [Failure]; no
    exception escapes and the request is not left pending, provided the
    storage calls back and the body of a response that started to arrive
    can be read to its end or fails. A message without a kind gets no
    answer at all. *)
Theorem C1_listener_answers_once (env : Env) (message : Message) (ty : string)
    (w : World) :
  type message = Some ty -> ty <> EmptyString -> body_settles env ->
  returned (listener env (Some message) w) = Some true /\
  task (listener env (Some message) w) = Done tt /\
  exists r, sent (final (listener env (Some message) w)) = sent w ++ [r].
Proof.
  intros Hty Hne Hbody. unfold listener. rewrite Hty. simpl.
  rewrite (truthy_str_ne ty Hne). simpl.
  destruct (truthy_str (request_text message)); simpl.
  2: { split; [reflexivity|split; [reflexivity|eexists; reflexivity]]. }
  destruct (Z.of_nat (String.length (request_text message)) >? 10000); simpl.
  { split; [reflexivity|split; [reflexivity|eexists; reflexivity]]. }
  pose proof (dispatch_answers_once env message ty (request_text message) w Hbody)
    as [Hr Hs].
  split; [reflexivity|]. rewrite Hr. split; [reflexivity|exact Hs].
Qed.

Lemma C1_listener_answers_once_witness :
  returned (listener (env_of silent_network) (Some (request "PING" "hello")) world0)
    = Some true /\
  task (listener (env_of silent_network) (Some (request "PING" "hello")) world0)
    = Done tt /\
  exists r,
    sent (final (listener (env_of silent_network) (Some (request "PING" "hello")) world0))
    = sent world0 ++ [r].
Proof.
  apply (C1_listener_answers_once (env_of silent_network) (request "PING" "hello")
           "PING" world0).
  - reflexivity.
  - discriminate.
  - intros c l r H. discriminate H.
Defined.

(** C1 as stated fails: a message without a kind is dropped by the
    guard at the top of the listener, which returns [undefined] and never
    calls [sendResponse]; and a response whose body never finishes
    arriving leaves the request pending, the timer being cleared as soon
    as the status line is there. *)
Lemma C1_counterexample :
  (returned (listener (env_of silent_network)
               (Some {| type := None; text := Some "hello";
                        target := None; voice := None |}) world0) = None /\
   sent (final (listener (env_of silent_network)
                  (Some {| type := None; text := Some "hello";
                           target := None; voice := None |}) world0)) = []) /\
  (task (listener (env_of (reply_with 200 BodyNeverSettles))
           (Some (request "ANALYZE_TEXT" "hello")) world0) = Pending /\
   sent (final (listener (env_of (reply_with 200 BodyNeverSettles))
                  (Some (request "ANALYZE_TEXT" "hello")) world0)) = []).
Proof. split; split; reflexivity. Qed.

(** C2. For every request (a message with a kind, recognized or not)
    whose text is empty once trimmed the listener answers
    [Failure{empty_text}], and for every request whose trimmed text is
    longer than 10000 characters it answers [Failure{text_too_long}]; the
    emptiness check comes first, both come before the kind is looked at,
    and in both cases [fetch] is never called. *)
Theorem C2_validation_before_network (env : Env) (message : Message) (ty : string)
    (w : World) :
  type message = Some ty -> ty <> EmptyString ->
  (request_text message = EmptyString ->
   sent (final (listener env (Some message) w)) = sent w ++ [Failure "empty_text" []] /\
   fetches (final (listener env (Some message) w)) = fetches w /\
   task (listener env (Some message) w) = Done tt) /\
  (Z.of_nat (String.length (request_text message)) > 10000 ->
   sent (final (listener env (Some message) w)) = sent w ++ [Failure "text_too_long" []] /\
   fetches (final (listener env (Some message) w)) = fetches w /\
   task (listener env (Some message) w) = Done tt).
Proof.
  intros Hty Hne. unfold listener. rewrite Hty.
  rewrite (truthy_str_ne ty Hne). simpl. split.
  - intros ->. simpl. repeat split.
  - intros Hlen.
    destruct (request_text message) as [|c r] eqn:Ht; [simpl in Hlen; lia|].
    cbn [truthy_str negb].
    destruct (Z.gtb_spec (Z.of_nat (String.length (String c r))) 10000); [|lia].
    repeat split.
Qed.

Lemma C2_validation_before_network_witness :
  (sent (final (listener (env_of silent_network)
                  (Some (request "TRANSLATE_TEXT" "   ")) world0))
   = sent world0 ++ [Failure "empty_text" []] /\
   fetches (final (listener (env_of silent_network)
                     (Some (request "TRANSLATE_TEXT" "   ")) world0))
   = fetches world0 /\
   task (listener (env_of silent_network)
           (Some (request "TRANSLATE_TEXT" "   ")) world0) = Done tt) /\
  (sent (final (listener (env_of silent_network)
                  (Some (request "GET_TTS" long_text)) world0))
   = sent world0 ++ [Failure "text_too_long" []] /\
   fetches (final (listener (env_of silent_network)
                     (Some (request "GET_TTS" long_text)) world0))
   = fetches world0 /\
   task (listener (env_of silent_network)
           (Some (request "GET_TTS" long_text)) world0) = Done tt).
Proof.
  split.
  - apply (proj1 (C2_validation_before_network (env_of silent_network)
                    (request "TRANSLATE_TEXT" "   ") "TRANSLATE_TEXT" world0
                    eq_refl ltac:(discriminate))).
    reflexivity.
  - apply (proj2 (C2_validation_before_network (env_of silent_network)
                    (request "GET_TTS" long_text) "GET_TTS" world0
                    eq_refl ltac:(discriminate))).
    vm_compute. reflexivity.
Defined.

Ltac ltb_to_prop :=
  repeat match goal with
    | H : (_ <? _) = true |- _ => apply Z.ltb_lt in H
    | H : (_ <? _) = false |- _ => apply Z.ltb_ge in H
    | H : (_ >? _) = true |- _ => apply Z.gtb_gt in H
    | H : (_ =? _)%string = true |- _ => apply String.eqb_eq in H
    | H : (_ =? _)%string = false |- _ => apply String.eqb_neq in H
    end.

(** A stored translation that is falsy is not served: the body goes on
    to the network. *)
Lemma dispatch_falsy_cached (env : Env) (message : Message) (text : string)
    (w : World) (e : CacheEntry) :
  cache_of (storage w) !! cacheKey (or_default (target message) "it") text = Some e ->
  truthy (translation e) = false ->
  wp (dispatch env "TRANSLATE_TEXT" message text)
     (fun _ w' =>
        (exists c, fetches w' = fetches w ++ [c] /\
           payload c = JObj [("text", JStr text);
                             ("target", JStr (or_default (target message) "it"))]) /\
        exists rs, sent w' = sent w ++ rs /\ forall t, Translation t true ∉ rs) w.
Proof.
  intros Hk Hfalsy. wp_run.
  all: try discriminate.
  all: try (injection Hk as ->; simpl in *; congruence).
  all: split; [eexists; split; reflexivity|].
  all: first [ exists []; split; [symmetry; apply app_nil_r|]
             | eexists [_]; split; [reflexivity|] ].
  all: intros t Hin; repeat (apply elem_of_cons in Hin as [Hin|Hin]; [discriminate|]).
  all: apply elem_of_nil in Hin; exact Hin.
Qed.

(** C10. When the entry stored under the key of a Translate request
    holds the empty string as its translation, the listener does not
    answer from the cache: it calls [fetch] once, with the text and the
    target, and no answer carries [cached: true]. *)
Theorem C10_empty_cached_translation_is_a_miss (env : Env) (message : Message)
    (w : World) (e : CacheEntry) :
  type message = Some "TRANSLATE_TEXT" ->
  request_text message <> EmptyString ->
  Z.of_nat (String.length (request_text message)) <= 10000 ->
  cache_of (storage w)
    !! cacheKey (or_default (target message) "it") (request_text message) = Some e ->
  translation e = JStr EmptyString ->
  (exists c,
     fetches (final (listener env (Some message) w)) = fetches w ++ [c] /\
     payload c = JObj [("text", JStr (request_text message));
                       ("target", JStr (or_default (target message) "it"))]) /\
  exists rs,
    sent (final (listener env (Some message) w)) = sent w ++ rs /\
    forall t, Translation t true ∉ rs.
Proof.
  intros Hty Htxt Hlen Hk He.
  rewrite (listener_dispatches env message "TRANSLATE_TEXT" w Hty
             ltac:(discriminate) Htxt Hlen).
  apply (dispatch_falsy_cached env message (request_text message) w e Hk).
  rewrite He. reflexivity.
Qed.

Lemma C10_empty_cached_translation_is_a_miss_witness :
  (exists c,
     fetches (final (listener (env_of silent_network)
                       (Some (request "TRANSLATE_TEXT" "hello"))
                       (with_entries {[ "t:it|hello" := empty_entry ]})))
     = fetches (with_entries {[ "t:it|hello" := empty_entry ]}) ++ [c] /\
     payload c = JObj [("text", JStr (request_text (request "TRANSLATE_TEXT" "hello")));
                       ("target",
                        JStr (or_default (target (request "TRANSLATE_TEXT" "hello")) "it"))]) /\
  exists rs,
    sent (final (listener (env_of silent_network)
                   (Some (request "TRANSLATE_TEXT" "hello"))
                   (with_entries {[ "t:it|hello" := empty_entry ]})))
    = sent (with_entries {[ "t:it|hello" := empty_entry ]}) ++ rs /\
    forall t, Translation t true ∉ rs.
Proof.
  apply (C10_empty_cached_translation_is_a_miss (env_of silent_network)
           (request "TRANSLATE_TEXT" "hello")
           (with_entries {[ "t:it|hello" := empty_entry ]}) empty_entry).
  - reflexivity.
  - discriminate.
  - vm_compute. discriminate.
  - apply lookup_singleton_eq.
  - reflexivity.
Defined.

(** An armed [fetch] settles by the time the timer fires, whatever the
    network does, and a call the network would not settle by then is
    rejected with an [AbortError]. *)
Lemma fetch_armed (env : Env) (c : FetchCall) (w : World) (t : Z) :
  abortAt w = Some t ->
  result (fetch env c) w <> Pending /\
  now (exec (fetch env c) w) <= Z.max (now w) t /\
  (too_slow (Z.max 0 (t - now w)) (network env c) ->
   result (fetch env c) w = Thrown AbortError).
Proof.
  intros Ht. unfold result, exec, fetch, log_fetch, sleep, modify, get_world,
    time_left, throw, never, mbind, M_bind, mret, M_ret.
  cbn [fst snd abortAt now]. rewrite Ht.
  destruct (network env c) as [l r|l e|]; cbn [too_slow].
  - destruct (Z.ltb_spec l (Z.max 0 (t - now w))); cbn; repeat split;
      try discriminate; try lia.
  - destruct (Z.ltb_spec l (Z.max 0 (t - now w))); cbn; repeat split;
      try discriminate; try lia.
  - cbn. repeat split; try discriminate; lia.
Qed.

Lemma timeoutMs_positive (ty : string) : 0 < timeoutMs ty.
Proof. unfold timeoutMs. destruct (String.eqb ty "GET_TTS"); lia. Qed.

Lemma dispatch_timeout (env : Env) (message : Message) (ty text : string) (w : World) :
  0 <= storageLatency env ->
  (forall c, too_slow (timeoutMs ty) (network env c)) ->
  wp (dispatch env ty message text)
     (fun o w' =>
        fetches w' <> fetches w ->
        sent w' = sent w ++ [Failure "timeout" []] /\ o = Done tt) w.
Proof.
  intros Hlat Hslow. wp_run.
  all: try (intros Hf; congruence).
  all: try (intros _; split; reflexivity).
  all: exfalso; ltb_to_prop.
  all: match goal with
       | H : network _ ?c = _ |- _ =>
           specialize (Hslow c); rewrite H in Hslow; cbn [too_slow] in Hslow
       end.
  all: pose proof (timeoutMs_positive ty).
  all: first [ lia | cbn in *; congruence ].
Qed.

Lemma dispatch_rejected (env : Env) (message : Message) (ty text : string)
    (w : World) (l : Z) (err : JsError) :
  0 <= storageLatency env ->
  (forall c, network env c = FetchRejects l err) ->
  l + 2 * storageLatency env < timeoutMs ty ->
  err_name err <> "AbortError" ->
  wp (dispatch env ty message text)
     (fun o w' =>
        fetches w' <> fetches w ->
        sent w' = sent w ++
                  [Failure "request_failed" [("message", JStr (failure_message err))]] /\
        o = Done tt) w.
Proof.
  intros Hlat Hnet Hl Hname. wp_run.
  all: try (intros Hf; congruence).
  all: try match goal with
         | H : network _ ?c = _ |- _ => rewrite (Hnet c) in H; try discriminate H
         end.
  all: try match goal with
         | H : FetchRejects _ _ = FetchRejects _ _ |- _ => injection H as -> ->
         end.
  all: try (intros _; split; reflexivity).
  all: exfalso; ltb_to_prop; pose proof (timeoutMs_positive ty).
  all: first [ lia | cbn in *; congruence ].
Qed.



End DispatchProps.

(** ** The cache key *)

Module KeyProps.
Import Js Json Dispatcher Examples.

Lemma append_bar_inj (t t' x x' : string) :
  occurs "|" t = false -> occurs "|" t' = false ->
  t +:+ String "|" x = t' +:+ String "|" x' -> t = t' /\ x = x'.
Proof.
  revert t'. induction t as [|a t IH]; intros [|b t'] Ht Ht' H; simpl in *.
  - injection H as ->. split; reflexivity.
  - injection H as <- _. simpl in Ht'. discriminate.
  - injection H as -> _. simpl in Ht. discriminate.
  - injection H as -> H.
    apply orb_false_elim in Ht as [_ Ht]. apply orb_false_elim in Ht' as [_ Ht'].
    destruct (IH t' Ht Ht' H) as [-> ->]. split; reflexivity.
Qed.

(** C5, as amended. The key is the text [t:], the target, a bar and the
    trimmed text. For every pair of Translate requests whose targets
    contain no bar (as language codes do not), the two keys are equal if and
    only if the targets are equal and the texts are equal. *)
Theorem C5_cacheKey_injective_plain_targets (target target' text text' : string) :
  occurs "|" target = false -> occurs "|" target' = false ->
  (cacheKey target text = cacheKey target' text' <->
   target = target' /\ text = text').
Proof.
  intros Ht Ht'. split.
  - intros H. unfold cacheKey in H. simpl in H. injection H as H.
    exact (append_bar_inj target target' text text' Ht Ht' H).
  - intros [-> ->]. reflexivity.
Qed.

Lemma C5_cacheKey_injective_plain_targets_witness :
  (cacheKey "it" "hello" = cacheKey "it" "hello" <-> "it" = "it" /\ "hello" = "hello") /\
  (cacheKey "it" "a|b" = cacheKey "fr" "a|b" <-> "it" = "fr" /\ "a|b" = "a|b").
Proof.
  split.
  - apply (C5_cacheKey_injective_plain_targets "it" "it" "hello" "hello");
      reflexivity.
  - apply (C5_cacheKey_injective_plain_targets "it" "fr" "a|b" "a|b");
      reflexivity.
Defined.

(** C5 as stated fails: the key is not injective. Two Translate
    requests that differ in target and in text get the same key when the
    bar occurs in a target: ["en|x"], ["y"] and ["en"], ["x|y"] both map to
    [t:en|x|y]. The second request is then answered from the entry the
    first one left, without any network call. *)
Lemma C5_counterexample :
  cacheKey "en|x" "y" = cacheKey "en" "x|y" /\
  ("en|x", "y") <> ("en", "x|y") /\
  sent (final (listener (env_of silent_network)
                 (Some {| type := Some "TRANSLATE_TEXT"; text := Some "x|y";
                          target := Some "en"; voice := None |})
                 (with_entries {[ cacheKey "en|x" "y" := other_entry ]})))
  = [Translation (translation other_entry) true] /\
  fetches (final (listener (env_of silent_network)
                    (Some {| type := Some "TRANSLATE_TEXT"; text := Some "x|y";
                             target := Some "en"; voice := None |})
                    (with_entries {[ cacheKey "en|x" "y" := other_entry ]})))
  = [].
Proof.
  split; [reflexivity|]. split; [discriminate|].
  split; vm_compute; reflexivity.
Qed.

End KeyProps.

(** ** Recovery of the model's answer *)

Module ParserProps.
Import Js Json Proxy Spec JsonFacts.

Lemma from_first_spec (c : ascii) (s t : string) :
  from_first c s = Some t <->
  exists pre r, s = pre +:+ String c r /\ t = String c r /\ occurs c pre = false.
Proof.
  unfold occurs. revert t. induction s as [|a s IH]; intros t; simpl.
  - split; [discriminate|]. intros (pre & r & H & _). destruct pre; discriminate.
  - destruct (Ascii.eqb a c) eqn:Hac.
    + apply Ascii.eqb_eq in Hac as ->. split.
      * intros [= <-]. exists EmptyString, s. repeat split.
      * intros (pre & r & H & -> & Hpre). destruct pre as [|b pre]; simpl in *.
        -- injection H as ->. reflexivity.
        -- injection H as <- _. rewrite Ascii.eqb_refl in Hpre. discriminate.
    + rewrite IH. split.
      * intros (pre & r & -> & -> & Hpre). exists (String a pre), r.
        simpl. rewrite Hac, Hpre. repeat split.
      * intros (pre & r & H & -> & Hpre). destruct pre as [|b pre]; simpl in *.
        -- injection H as -> _. rewrite Ascii.eqb_refl in Hac. discriminate.
        -- injection H as <- ->. apply orb_false_elim in Hpre as [_ Hpre].
           exists pre, r. repeat split. exact Hpre.
Qed.

Lemma up_to_last_none (c : ascii) (s : string) :
  up_to_last c s = None <-> occurs c s = false.
Proof.
  unfold occurs. induction s as [|a s IH]; simpl; [split; reflexivity|].
  destruct (up_to_last c s) as [p|].
  - split; [discriminate|]. intros H. apply orb_false_elim in H as [_ H].
    apply IH in H. discriminate.
  - destruct (Ascii.eqb a c); simpl; [split; discriminate|].
    split; intros _; [apply IH|]; reflexivity.
Qed.

Lemma up_to_last_spec (c : ascii) (s p : string) :
  up_to_last c s = Some p <->
  exists q post, s = q +:+ String c post /\ p = q +:+ String c EmptyString /\
                 occurs c post = false.
Proof.
  pose proof (up_to_last_none c) as Hnone.
  unfold occurs in *. revert p. induction s as [|a s IH]; intros p; simpl.
  - split; [discriminate|]. intros (q & post & H & _). destruct q; discriminate.
  - destruct (up_to_last c s) as [p'|] eqn:Hs.
    + split.
      * intros [= <-]. destruct (proj1 (IH p') eq_refl) as (q & post & -> & -> & Hp).
        exists (String a q), post. repeat split. exact Hp.
      * intros (q & post & H & -> & Hp). destruct q as [|b q]; simpl in *.
        -- injection H as -> ->. apply Hnone in Hp. congruence.
        -- injection H as <- ->. f_equal. f_equal.
           assert (He : Some p' = Some (q +:+ String c EmptyString)).
           { apply IH. exists q, post. repeat split. exact Hp. }
           injection He as ->. reflexivity.
    + apply Hnone in Hs. destruct (Ascii.eqb a c) eqn:Hac.
      * apply Ascii.eqb_eq in Hac as ->. split.
        -- intros [= <-]. exists EmptyString, s. repeat split. exact Hs.
        -- intros (q & post & H & -> & Hp). destruct q as [|b q]; simpl in *.
           ++ reflexivity.
           ++ injection H as <- ->. exfalso. clear -Hs. simpl in Hs.
              induction q as [|d q IHq]; simpl in Hs.
              ** rewrite Ascii.eqb_refl in Hs. discriminate.
              ** apply orb_false_elim in Hs as [_ Hs]. exact (IHq Hs).
      * split; [discriminate|]. intros (q & post & H & -> & Hp).
        destruct q as [|b q]; simpl in *.
        -- injection H as -> _. rewrite Ascii.eqb_refl in Hac. discriminate.
        -- injection H as <- ->. exfalso. clear -Hs. simpl in Hs.
           induction q as [|d q IHq]; simpl in Hs.
           ++ rewrite Ascii.eqb_refl in Hs. discriminate.
           ++ apply orb_false_elim in Hs as [_ Hs]. exact (IHq Hs).
Qed.

(** The match of [/\{[\s\S]*\}/]: the text from the first opening brace
    through the last closing brace. *)
Lemma match_braces_spec (s m : string) :
  match_braces s = Some m <->
  exists pre inner post,
    s = pre +:+ String "{" (inner +:+ String "}" post) /\
    m = String "{" (inner +:+ String "}" EmptyString) /\
    occurs "{" pre = false /\ occurs "}" post = false.
Proof.
  unfold match_braces. split.
  - destruct (from_first "{" s) as [t|] eqn:Hf; [|discriminate].
    apply from_first_spec in Hf as (pre & r & -> & -> & Hpre).
    intros Hl. apply up_to_last_spec in Hl as (q & post & Hq & -> & Hpost).
    destruct q as [|b q]; simpl in Hq; [discriminate|].
    injection Hq as <- ->. exists pre, q, post. repeat split; assumption.
  - intros (pre & inner & post & -> & -> & Hpre & Hpost).
    assert (Hf : from_first "{" (pre +:+ String "{" (inner +:+ String "}" post)) =
                 Some (String "{" (inner +:+ String "}" post))).
    { apply from_first_spec. exists pre, (inner +:+ String "}" post).
      repeat split. exact Hpre. }
    rewrite Hf. apply up_to_last_spec.
    exists (String "{" inner), post. repeat split. exact Hpost.
Qed.

Lemma up_to_last_some (c : ascii) (s : string) :
  occurs c s = true -> exists p, up_to_last c s = Some p /\ occurs c p = true.
Proof.
  unfold occurs. induction s as [|a s IH]; simpl; [discriminate|].
  destruct (up_to_last c s) as [p|] eqn:Hs.
  - intros _. exists (String a p). split; [reflexivity|]. simpl.
    destruct (test_class (fun a0 => Ascii.eqb a0 c) s) eqn:Ho.
    + destruct (IH eq_refl) as (p' & [= <-] & Hp). rewrite Hp. apply orb_true_r.
    + apply up_to_last_none in Ho. unfold occurs in Ho. congruence.
  - destruct (Ascii.eqb a c) eqn:E.
    + intros _. exists (String a EmptyString). split; [reflexivity|].
      simpl. rewrite E. reflexivity.
    + simpl. intros Ho. apply up_to_last_none in Hs. unfold occurs in Hs. congruence.
Qed.

Lemma up_to_last_app (c : ascii) (a b p : string) :
  up_to_last c b = Some p -> up_to_last c (a +:+ b) = Some (a +:+ p).
Proof.
  intros H. induction a as [|x a IH]; simpl; [exact H|]. rewrite IH. reflexivity.
Qed.

(** An object followed by a stray closing brace is never recovered: when
    the cleaned text is some prose without opening brace, then a text
    that starts with an opening brace and parses, then anything that
    contains a closing brace, and the direct parse has failed, the brace
    match runs past the object and its parse fails too. *)
Lemma stray_brace_not_recovered (content pre o post : string) (v : json) :
  clean content = pre +:+ (String "{" o +:+ post) ->
  occurs "{" pre = false ->
  JSON_parse (String "{" o) = Some v ->
  occurs "}" post = true ->
  JSON_parse (clean content) = None ->
  parse_model_output content =
  ParseFailure (clean content) "Could not parse model output as JSON".
Proof.
  intros Hc Hpre Hobj Hpost Hdirect.
  destruct (up_to_last_some "}" post Hpost) as (p & Hp & Hop).
  assert (Hm : match_braces (clean content) = Some (String "{" o +:+ p)).
  { unfold match_braces. rewrite Hc.
    assert (Hf : from_first "{" (pre +:+ (String "{" o +:+ post)) =
                 Some (String "{" o +:+ post)).
    { apply from_first_spec. exists pre, (o +:+ post). repeat split. exact Hpre. }
    rewrite Hf. apply up_to_last_app, Hp. }
  assert (Hfail : JSON_parse (String "{" o +:+ p) = None).
  { apply (JSON_parse_trailing _ _ v Hobj (JSON_parse_brace o v Hobj)).
    apply (skip_ws_occurs "}"); [reflexivity|exact Hop]. }
  unfold parse_model_output. rewrite Hdirect, Hm, Hfail. reflexivity.
Qed.




End ParserProps.

(** ** Routing in the handler *)

Module RoutingProps.
Import Js Json Proxy Examples.

(** The payload a POST request carries: the body the platform parsed,
    or else the JSON text read from the request stream. *)
Lemma handler_post (env : Env) (upstream : UpstreamCall -> Upstream) (req : Request)
    (fields : json) :
  method req = "POST" -> carries req fields -> truthy fields = true ->
  handler env upstream req = handle_payload env upstream "POST" (Some fields).
Proof.
  intros Hm [Hb|(data & Hb & Hs & Hp)] Ht; unfold handler; rewrite Hm.
  - rewrite Hb. simpl. rewrite Ht. reflexivity.
  - rewrite Hb, Hs, Hp. reflexivity.
Qed.




End RoutingProps.

(** ** The scenarios of the specification, run on the model *)

Module Scenarios.
Import Js Json Dispatcher Examples.

(** A translation obtained from the proxy is answered and cached; the
    same request, issued again, is answered from the cache without a
    second network call. *)
Example translate_twice :
  let first :=
    listener (env_of (reply_with 200 (BodyText (quoted "{'translation':'ciao'}"))))
      (Some (request "TRANSLATE_TEXT" " hello ")) world0 in
  let second :=
    listener (env_of silent_network)
      (Some (request "TRANSLATE_TEXT" "hello")) (final first) in
  sent (final first) = [Translation (JStr "ciao") false] /\
  payload <$> fetches (final first)
  = [JObj [("text", JStr "hello"); ("target", JStr "it")]] /\
  sent (final second)
  = [Translation (JStr "ciao") false; Translation (JStr "ciao") true] /\
  fetches (final second) = fetches (final first).
Proof. repeat split; vm_compute; reflexivity. Qed.

(** A proxy that answers with a failure status. *)
Example proxy_error_passed_on :
  sent (final (listener (env_of (reply_with 502 (BodyText "upstream down")))
                 (Some (request "ANALYZE_TEXT" "cat")) world0))
  = [Failure "proxy_error"
       [("status", JNum 502 0); ("message", JStr "upstream down")]].
Proof. vm_compute. reflexivity. Qed.

(** The handler recovers a fenced analysis and fills the arrays that
    are missing. *)
Example analyze_fenced_answer :
  Proxy.answer
    (Proxy.response
       (Proxy.handler server_env
          (fun _ =>
             Proxy.Responds 200
               (inl (quoted "{'choices':[{'message':{'content':'```json\n{\'type\':\'word\',\'word\':\'cat\'}\n```'}}]}")))
          (post_of "{'text':' cat ','action':'analyze'}")))
  = Some (JObj [("analysis",
                 JObj [("type", JStr "word"); ("word", JStr "cat");
                       ("synonyms", JArr []); ("antonyms", JArr []);
                       ("examples", JArr [])])]).
Proof. vm_compute. reflexivity. Qed.

(** [OPTIONS] is answered with 200 and the CORS headers, whatever comes
    with it. *)
Example options_is_200 (env : Proxy.Env) (upstream : Proxy.UpstreamCall -> Proxy.Upstream)
    (b : option json) (data : string + JsError) :
  Proxy.response
    (Proxy.handler env upstream
       {| Proxy.method := "OPTIONS"; Proxy.body := b; Proxy.stream := data |})
  = {| Proxy.status := 200; Proxy.cors := true; Proxy.answer := None |}.
Proof. reflexivity. Qed.

End Scenarios.

(** ** Further facts about strings *)

Module StringFacts.
Import Js.

Lemma trimStart_fixed (s : string) :
  (forall c r, s = String c r -> is_ws c = false) -> trimStart s = s.
Proof.
  destruct s as [|c r]; [reflexivity|]. intros H. simpl.
  rewrite (H c r eq_refl). reflexivity.
Qed.

Lemma trimEnd_idem (s : string) : trimEnd (trimEnd s) = trimEnd s.
Proof.
  induction s as [|c r IH]; [reflexivity|]. simpl.
  destruct (trimEnd r) as [|b t] eqn:Hr.
  - destruct (is_ws c) eqn:Hc; [reflexivity|]. simpl. rewrite Hc. reflexivity.
  - simpl. simpl in IH. rewrite IH. reflexivity.
Qed.

(** Trimming twice is trimming once. *)
Lemma trim_idem (s : string) : trim (trim s) = trim s.
Proof.
  unfold trim at 1. rewrite trimStart_fixed.
  - unfold trim. apply trimEnd_idem.
  - intros c r H. apply (JsFacts.trim_head s c r H).
Qed.

Lemma app_cons (c : ascii) (s t : string) : String c s +:+ t = String c (s +:+ t).
Proof. reflexivity. Qed.

Lemma app_nil (t : string) : EmptyString +:+ t = t.
Proof. reflexivity. Qed.

Ltac app_simpl := rewrite ?app_cons, ?app_nil; simpl; rewrite ?app_cons, ?app_nil.

Lemma length_append (s t : string) :
  String.length (s +:+ t) = (String.length s + String.length t)%nat.
Proof. induction s as [|c s IH]; app_simpl; [reflexivity|f_equal; exact IH]. Qed.

Lemma append_assoc (s t u : string) : (s +:+ t) +:+ u = s +:+ (t +:+ u).
Proof. induction s as [|c s IH]; app_simpl; [reflexivity|f_equal; exact IH]. Qed.

Lemma substring_length_le (a n : nat) (s : string) :
  (String.length (String.substring a n s) <= n)%nat.
Proof.
  revert a n. induction s as [|c s IH]; intros [|a] [|n]; simpl; try lia.
  - specialize (IH 0%nat n). lia.
  - apply (IH a 0%nat).
  - apply (IH a (S n)).
Qed.

Lemma substring_length (a n : nat) (s : string) :
  (a + n <= String.length s)%nat -> String.length (String.substring a n s) = n.
Proof.
  revert a n. induction s as [|c s IH]; intros [|a] [|n]; simpl; try lia.
  - intros H. rewrite (IH 0%nat n); lia.
  - intros H. apply (IH a 0%nat). lia.
  - intros H. apply (IH a (S n)). lia.
Qed.

Lemma substring_in_range (a n : nat) (s t : string) :
  String.substring a n s = t -> String.length t = n ->
  (n = 0 \/ a + n <= String.length s)%nat.
Proof.
  revert a n t. induction s as [|c s IH]; intros [|a] [|n] t; simpl; try lia.
  - intros <-. simpl. lia.
  - intros <-. simpl. lia.
  - intros <-. simpl. intros [= H].
    destruct (IH 0%nat n _ eq_refl H); [subst; lia|lia].
  - intros <- H. destruct (IH a (S n) _ eq_refl H); lia.
Qed.

Lemma substring_app_l (k n : nat) (x y : string) :
  (k + n <= String.length x)%nat ->
  String.substring k n (x +:+ y) = String.substring k n x.
Proof.
  revert k n. induction x as [|c x IH]; intros k n; app_simpl.
  - intros H. assert (k = 0 /\ n = 0)%nat as [-> ->] by lia.
    destruct y; reflexivity.
  - destruct k as [|k], n as [|n]; simpl; intros H; try reflexivity.
    + rewrite (IH 0%nat n) by lia. reflexivity.
    + apply IH. lia.
    + apply IH. lia.
Qed.

Lemma substring_app_r (k n : nat) (p x : string) :
  String.substring (String.length p + k) n (p +:+ x) = String.substring k n x.
Proof. induction p as [|c p IH]; app_simpl; [reflexivity|exact IH]. Qed.

Lemma substring_substring (a m k n : nat) (s : string) :
  (k + n <= m)%nat ->
  String.substring k n (String.substring a m s) = String.substring (a + k) n s.
Proof.
  revert a m k n. induction s as [|c s IH]; intros a m k n H.
  - destruct a, m, k, n; reflexivity.
  - destruct a as [|a].
    + destruct m as [|m].
      * assert (k = 0 /\ n = 0)%nat as [-> ->] by lia. reflexivity.
      * simpl. destruct k as [|k].
        -- destruct n as [|n]; [reflexivity|]. simpl.
           rewrite (IH 0%nat m 0%nat n) by lia. reflexivity.
        -- simpl. rewrite (IH 0%nat m k n) by lia. reflexivity.
    + simpl. apply IH. exact H.
Qed.

Lemma substring_prefix (p r : string) :
  String.substring 0 (String.length p) (p +:+ r) = p.
Proof.
  induction p as [|c p IH]; app_simpl; [destruct r; reflexivity|].
  rewrite IH. reflexivity.
Qed.

(** A text splits at any position within it. *)
Lemma split_at (n : nat) (s : string) :
  (n <= String.length s)%nat ->
  exists p r, s = p +:+ r /\ String.length p = n.
Proof.
  revert n. induction s as [|c s IH]; intros [|n] H; simpl in H.
  - exists EmptyString, EmptyString. auto.
  - lia.
  - exists EmptyString, (String c s). auto.
  - destruct (IH n) as (p & r & -> & Hp); [lia|].
    exists (String c p), r. simpl. auto.
Qed.

End StringFacts.

(** ** Further properties of the storage accessors *)

Module StorageProps.
Import Js Json Dispatcher Examples CacheProps.

(** X1. A read never serves a stale translation: whatever it returns that is
    not [null] is the translation of the entry stored under the key, the
    entry is at most 24 hours old when its age is compared, and the
    storage is left as it was. *)
Theorem read_is_never_stale (env : Env) (k : string) (w : World) (t : json) :
  result (getCachedTranslation env k) w = Done (Some t) ->
  exists e, cache_of (storage w) !! k = Some e /\ translation e = t /\
            age_at_read env w e <= CACHE_TTL_MS /\
            storage (exec (getCachedTranslation env k) w) = storage w.
Proof.
  intros Hr. destruct (cache_of (storage w) !! k) as [e|] eqn:Hk.
  - destruct (Z.le_gt_cases (age_at_read env w e) CACHE_TTL_MS) as [Hage|Hage].
    + destruct (get_fresh env k w e Hk Hage) as [Hf Hs].
      rewrite Hf in Hr. injection Hr as <-. exists e. auto.
    + destruct (get_expired env k w e Hk) as [Hf _]; [lia|].
      rewrite Hf in Hr. discriminate.
  - destruct (get_absent env k w Hk) as [Hf _]. rewrite Hf in Hr. discriminate.
Qed.

Lemma read_is_never_stale_witness :
  exists e, cache_of (storage (with_entries {[ "t:it|cat" := other_entry ]}))
              !! "t:it|cat" = Some e /\
            translation e = JStr "gatto" /\
            age_at_read (env_of silent_network)
              (with_entries {[ "t:it|cat" := other_entry ]}) e <= CACHE_TTL_MS /\
            storage (exec (getCachedTranslation (env_of silent_network) "t:it|cat")
                       (with_entries {[ "t:it|cat" := other_entry ]}))
            = storage (with_entries {[ "t:it|cat" := other_entry ]}).
Proof.
  apply (read_is_never_stale (env_of silent_network) "t:it|cat"
           (with_entries {[ "t:it|cat" := other_entry ]}) (JStr "gatto")).
  vm_compute. reflexivity.
Defined.

(** X2. A read changes the storage in one way only: it leaves it alone, or
    it returns [null] and writes the map back without the key it read;
    the proxy settings are never written. *)
Theorem read_removes_at_most_its_key (env : Env) (k : string) (w : World) :
  storage (exec (getCachedTranslation env k) w) = storage w \/
  (result (getCachedTranslation env k) w = Done None /\
   cache_of (storage (exec (getCachedTranslation env k) w))
   = delete k (cache_of (storage w)) /\
   proxyUrl (storage (exec (getCachedTranslation env k) w)) = proxyUrl (storage w) /\
   proxyToken (storage (exec (getCachedTranslation env k) w)) = proxyToken (storage w)).
Proof.
  destruct (cache_of (storage w) !! k) as [e|] eqn:Hk.
  - destruct (Z.le_gt_cases (age_at_read env w e) CACHE_TTL_MS) as [Hage|Hage].
    + left. apply (get_fresh env k w e Hk Hage).
    + right. destruct (get_expired env k w e Hk) as [Hf Hs]; [lia|].
      split; [exact Hf|]. split; [unfold cache_of at 1; rewrite Hs; reflexivity|].
      run_cache. rewrite Hk. simpl.
      destruct (Z.gtb_spec (now w + storageLatency env - ts e) CACHE_TTL_MS); [|lia].
      split; reflexivity.
  - left. apply (get_absent env k w Hk).
Qed.

(** X3. A write touches one key: it settles, the entry under the key is the
    translation stamped with the clock as the stored map was read, every
    other key keeps its entry and the proxy settings are not written; it
    takes two accesses to the storage. *)
Theorem write_touches_one_key (env : Env) (k : string) (v : json) (w : World) :
  result (setCachedTranslation env k v) w = Done tt /\
  cache_of (storage (exec (setCachedTranslation env k v) w)) !! k
  = Some {| translation := v; ts := now w + storageLatency env |} /\
  (forall k', k' <> k ->
     cache_of (storage (exec (setCachedTranslation env k v) w)) !! k'
     = cache_of (storage w) !! k') /\
  proxyUrl (storage (exec (setCachedTranslation env k v) w)) = proxyUrl (storage w) /\
  proxyToken (storage (exec (setCachedTranslation env k v) w)) = proxyToken (storage w) /\
  now (exec (setCachedTranslation env k v) w) = now w + 2 * storageLatency env.
Proof.
  pose proof (put_stores env k v w) as Hput.
  split; [reflexivity|].
  split; [unfold cache_of at 1; rewrite Hput; apply lookup_insert_eq|].
  split.
  { intros k' Hne. unfold cache_of at 1. rewrite Hput.
    apply lookup_insert_ne. congruence. }
  run_cache. repeat split. lia.
Qed.

(** X4. The proxy settings as the listener reads them: the URL is never
    empty (an absent or empty setting gives the default), the token is
    absent or not empty, and the read leaves the storage as it was. *)
Theorem proxy_url_is_never_empty (env : Env) (w : World) :
  exists cfg, result (getProxyConfig env) w = Done cfg /\
              cfg_url cfg <> EmptyString /\ cfg_token cfg <> Some EmptyString /\
              (truthy_str (default EmptyString (proxyUrl (storage w))) = true ->
               Some (cfg_url cfg) = proxyUrl (storage w)) /\
              storage (exec (getProxyConfig env) w) = storage w.
Proof.
  eexists. split; [reflexivity|]. cbn.
  destruct (proxyUrl (storage w)) as [[|a u]|], (proxyToken (storage w)) as [[|b t]|];
    cbn; repeat split; congruence.
Qed.

End StorageProps.

(** ** Further properties of the asynchronous body *)

Module DispatchFacts.
Import Js Json Dispatcher Examples Wp DispatchProps Notions.

Lemma truthy_default (o : option json) :
  truthy_opt o = true -> truthy (default JNull o) = true.
Proof. destruct o; [intros H; exact H|discriminate]. Qed.

Ltac count_fetches :=
  first [ exists []; split; [symmetry; apply app_nil_r|simpl; lia]
        | eexists [_]; split; [reflexivity|simpl; lia] ].

Ltac frame_storage :=
  let Hty := fresh "Hty" in
  intros Hty; first [reflexivity | ltb_to_prop; congruence].

Ltac written_entry :=
  let t := fresh "t" in
  let Hs := fresh "Hs" in
  intros t Hs;
  first
    [ apply (f_equal length) in Hs; rewrite length_app in Hs; simpl in Hs; lia
    | apply app_inv_head in Hs;
      first
        [ discriminate
        | injection Hs as <-; unfold cache_of; cbn; rewrite lookup_insert_eq;
          repeat f_equal; lia ] ].

Ltac truthy_payloads :=
  first [ exists []; split; [symmetry; apply app_nil_r|constructor]
        | eexists [_]; split; [reflexivity|constructor; [|constructor]] ];
  cbn [carries_payload]; try reflexivity;
  repeat match goal with
    | H : negb _ = false |- _ => apply negb_false_iff in H
    | H : (_ || _)%bool = false |- _ => apply orb_false_elim in H as [? ?]
    end;
  first
    [ apply truthy_default; assumption
    | apply andb_true_intro; split; [apply truthy_default; assumption|];
      match goal with
      | |- context [truthy_opt (prop "mime" ?d)] =>
          let Hm := fresh "Hm" in
          destruct (truthy_opt (prop "mime" d)) eqn:Hm;
          [apply truthy_default; exact Hm|reflexivity]
      end ].

Ltac stored_settings :=
  let c := fresh "c" in
  let Hin := fresh "Hin" in
  intros c Hin;
  first
    [ left; exact Hin
    | apply elem_of_app in Hin as [Hin|Hin]; [left; exact Hin|right];
      apply list_elem_of_singleton in Hin as ->;
      split; [reflexivity|];
      unfold headers_for, request_headers; cbn [cfg_token headers];
      match goal with
      | |- context [proxyToken (storage ?w)] =>
          destruct (proxyToken (storage w)) as [t|]; [destruct (truthy_str t)|];
          reflexivity
      end ].

Ltac provenance Hk :=
  first
    [ left; exact Hk
    | apply lookup_delete_Some in Hk as [_ Hk]; provenance Hk
    | apply lookup_insert_Some in Hk as [[<- <-]|[_ Hk]];
      [ right; cbn [translation]; repeat split; try assumption;
        [ apply truthy_default; assumption
        | apply elem_of_app; right; apply list_elem_of_singleton; reflexivity ]
      | provenance Hk ] ].

Ltac cache_origin :=
  let k := fresh "k" in
  let e := fresh "e" in
  let Hk := fresh "Hk" in
  split; [reflexivity|split; [reflexivity|]];
  intros k e Hk;
  ltb_to_prop; unfold cache_of in Hk; cbn in Hk;
  first [ provenance Hk | exfalso; cbn in *; discriminate ].

Ltac unknown_kind :=
  let Hk := fresh "Hk" in
  let H1 := fresh "H" in
  let H2 := fresh "H" in
  let H3 := fresh "H" in
  unfold known_kind; intros Hk;
  apply orb_false_elim in Hk as [Hk H3]; apply orb_false_elim in Hk as [H1 H2];
  first [ congruence | repeat split ].

(** What every run of the asynchronous body satisfies, whatever the
    message, the storage and the network. *)
Lemma dispatch_summary (env : Env) (message : Message) (ty text : string) (w : World) :
  wp (dispatch env ty message text)
     (fun o w' =>
        (exists l, fetches w' = fetches w ++ l /\ (length l <= 1)%nat) /\
        abortAt w' = None /\
        (ty <> "TRANSLATE_TEXT" -> storage w' = storage w) /\
        (forall t, sent w' = sent w ++ [Translation t false] ->
           cache_of (storage w') !! cacheKey (or_default (target message) "it") text
           = Some {| translation := t; ts := now w' - storageLatency env |}) /\
        (exists rs, sent w' = sent w ++ rs /\
                    Forall (fun r => carries_payload r = true) rs) /\
        (forall c, c ∈ fetches w' ->
           c ∈ fetches w \/
           (url c = or_default (proxyUrl (storage w))
                      "https://smarttranslateplus-f5y4.vercel.app/api/translate" /\
            headers c = headers_for (storage w))) /\
        (proxyUrl (storage w') = proxyUrl (storage w) /\
         proxyToken (storage w') = proxyToken (storage w) /\
         forall k e, cache_of (storage w') !! k = Some e ->
           cache_of (storage w) !! k = Some e \/
           (ty = "TRANSLATE_TEXT" /\
            k = cacheKey (or_default (target message) "it") text /\
            truthy (translation e) = true /\
            Translation (translation e) false ∈ sent w')) /\
        (known_kind ty = false ->
         o = Done tt /\ sent w' = sent w ++ [Failure "unknown_message_type" []] /\
         fetches w' = fetches w /\ storage w' = storage w)) w.
Proof.
  wp_run.
  all: split; [count_fetches|].
  all: split; [reflexivity|].
  all: split; [frame_storage|].
  all: split; [written_entry|].
  all: split; [truthy_payloads|].
  all: split; [stored_settings|].
  all: split; [cache_origin|].
  all: unknown_kind.
Qed.

End DispatchFacts.

Module DispatchCases.
Import Js Json Dispatcher Examples Wp DispatchProps Notions DispatchFacts.

Lemma dispatch_hit (env : Env) (message : Message) (text : string) (w : World)
    (e : CacheEntry) :
  cache_of (storage w) !! cacheKey (or_default (target message) "it") text = Some e ->
  truthy (translation e) = true ->
  now w + 2 * storageLatency env - ts e <= CACHE_TTL_MS ->
  wp (dispatch env "TRANSLATE_TEXT" message text)
     (fun o w' =>
        o = Done tt /\ sent w' = sent w ++ [Translation (translation e) true] /\
        fetches w' = fetches w /\ storage w' = storage w) w.
Proof.
  intros Hk Ht Hage. wp_run.
  all: try discriminate.
  all: injection Hk as ->.
  all: ltb_to_prop; try lia.
  all: try (cbn in *; congruence).
  all: repeat split.
Qed.

Ltac use_network H :=
  repeat match goal with
    | Hn : network _ ?c = _ |- _ => rewrite (H c) in Hn; try discriminate Hn
    end;
  repeat match goal with
    | Hn : FetchResolves _ _ = FetchResolves _ _ |- _ => injection Hn as -> ->
    end.

Lemma dispatch_proxy_error (env : Env) (message : Message) (ty text : string)
    (w : World) (l : Z) (resp : HttpResponse) :
  answers_in_time env ty l resp ->
  ok resp = false -> body resp <> BodyNeverSettles ->
  wp (dispatch env ty message text)
     (fun o w' =>
        fetches w' <> fetches w ->
        o = Done tt /\
        sent w' = sent w ++
          [Failure "proxy_error"
             [("status", JNum (status resp) 0); ("message", JStr (body_text resp))]]) w.
Proof.
  intros (Hnet & Hlat & Hl) Hok Hbody. wp_run.
  all: try (intros Hf; congruence).
  all: use_network Hnet.
  all: try (rewrite Hok in *; discriminate).
  all: try contradiction.
  all: unfold body_text.
  all: try match goal with H : body _ = _ |- _ => rewrite H end.
  all: try (intros _; split; reflexivity).
  all: exfalso; ltb_to_prop; pose proof (timeoutMs_positive ty).
  all: first [ lia | cbn in *; congruence ].
Qed.

Lemma prop_of_falsy (k : string) (v : json) :
  truthy v = false -> prop k v = None.
Proof. destruct v; try reflexivity. discriminate. Qed.

Lemma dispatch_bad_body (env : Env) (message : Message) (ty text : string)
    (w : World) (l : Z) (resp : HttpResponse) :
  answers_in_time env ty l resp ->
  ok resp = true -> body resp <> BodyNeverSettles ->
  truthy (body_json resp) = false ->
  wp (dispatch env ty message text)
     (fun o w' =>
        fetches w' <> fetches w ->
        o = Done tt /\
        (ty = "TRANSLATE_TEXT" -> sent w' = sent w ++ [Failure "invalid_response" []]) /\
        (ty = "ANALYZE_TEXT" ->
         sent w' = sent w ++ [Failure "no_analysis" [("raw", body_json resp)]]) /\
        (ty = "GET_TTS" ->
         sent w' = sent w ++ [Failure "no_audio" [("raw", body_json resp)]])) w.
Proof.
  intros (Hnet & Hlat & Hl) Hok Hbody Hdata. wp_run.
  all: try (intros Hf; congruence).
  all: use_network Hnet.
  all: try (rewrite Hok in *; discriminate).
  all: try contradiction.
  all: unfold body_json in *.
  all: try match goal with H : body _ = _ |- _ => rewrite H in * end.
  all: try match goal with H : JSON_parse _ = _ |- _ => rewrite H in * end.
  all: cbn [default] in *.
  all: try (intros _; ltb_to_prop; subst;
            split; [reflexivity|repeat split; intros; try discriminate; reflexivity]).
  all: try (exfalso; ltb_to_prop; pose proof (timeoutMs_positive ty);
            first [ lia | cbn in *; congruence ]).
  all: exfalso; unfold id in *; rewrite Hdata in *; discriminate.
Qed.

Lemma dispatch_payload_served (env : Env) (message : Message) (ty text : string)
    (w : World) (senv : Proxy.Env) (up : Proxy.UpstreamCall -> Proxy.Upstream) :
  text <> EmptyString -> Z.of_nat (String.length text) <= 10000 ->
  Proxy.env_or (Proxy.OPENAI_API_KEY senv) None <> None ->
  wp (dispatch env ty message text)
     (fun _ w' =>
        forall c, c ∈ fetches w' ->
          c ∈ fetches w \/
          (truthy (payload c) = true /\
           Proxy.route (Proxy.handle_payload senv up "POST" (Some (payload c)))
           = Some (branch_for ty) /\
           (ty = "TRANSLATE_TEXT" ->
            Proxy.calls (Proxy.handle_payload senv up "POST" (Some (payload c)))
            = [Proxy.ChatTranslate
                 (or_default (Proxy.OPENAI_MODEL senv) "gpt-3.5-turbo")
                 (JStr (or_default (target message) "it")) text]))) w.
Proof.
  intros Hne Hlen Hkey. wp_run.
  all: intros c0 Hin; try (left; exact Hin).
  all: apply elem_of_app in Hin as [Hin|Hin]; [left; exact Hin|right].
  all: apply list_elem_of_singleton in Hin as ->.
  all: unfold branch_for; split; [reflexivity|]; split; [|intros Hty].
  all: repeat match goal with
         | H : String.eqb _ _ = true |- _ => rewrite ?H; apply String.eqb_eq in H; subst
         | H : String.eqb _ _ = false |- _ => rewrite H; clear H
         end.
  all: cbn [String.eqb Ascii.eqb Bool.eqb].
  all: unfold Proxy.handle_payload; cbn.
  all: destruct text as [|a r]; [congruence|]; cbn [truthy_str negb].
  all: destruct (Z.gtb_spec (Z.of_nat (String.length (String a r))) 10000); [lia|].
  all: destruct (Proxy.env_or (Proxy.OPENAI_API_KEY senv) None); [|congruence].
  all: cbn.
  all: try reflexivity; try discriminate.
  all: try (destruct (target message) as [[|? ?]|]; reflexivity).
  all: repeat match goal with
         | |- context [match ?x with _ => _ end] => destruct x
         end; reflexivity.
Qed.

End DispatchCases.

(** ** Further properties of the listener *)

Module ListenerProps.
Import Js Json Dispatcher Examples Wp DispatchProps Notions DispatchFacts DispatchCases.

(** The four ways an invocation of the listener can go. *)
Lemma listener_cases (env : Env) (message : option Message) (w : World)
    (P : Run -> Prop) :
  P (run None (mret tt) w) ->
  P (run (Some true) (sendResponse (Failure "empty_text" [])) w) ->
  P (run (Some true) (sendResponse (Failure "text_too_long" [])) w) ->
  (forall m ty, message = Some m -> dispatched m ty ->
     P (run (Some true) (dispatch env ty m (request_text m)) w)) ->
  P (listener env message w).
Proof.
  intros H0 H1 H2 H3. unfold listener.
  destruct message as [m|]; [|exact H0].
  destruct (type m) as [ty|] eqn:Hty; [|exact H0].
  destruct (truthy_str ty) eqn:Ht; [|exact H0]. cbn [negb].
  destruct (truthy_str (request_text m)) eqn:Hx; [|exact H1]. cbn [negb].
  destruct (Z.gtb_spec (Z.of_nat (String.length (request_text m))) 10000);
    [exact H2|].
  apply (H3 m ty eq_refl). repeat split; try assumption; try lia.
  - intros ->. discriminate.
  - intros E. rewrite E in Hx. discriminate.
Qed.

Lemma dispatched_listener (env : Env) (m : Message) (ty : string) (w : World) :
  dispatched m ty ->
  listener env (Some m) w = run (Some true) (dispatch env ty m (request_text m)) w.
Proof. intros (H1 & H2 & H3 & H4). apply listener_dispatches; assumption. Qed.

Lemma run_task_done {A : Type} (ret : option bool) (m : M A) (w : World) (a : A) :
  result m w = Done a -> task (run ret m w) = Done tt.
Proof. intros H. unfold run. cbn [task]. rewrite H. reflexivity. Qed.

Ltac summary env m ty w :=
  pose proof (dispatch_summary env m ty (request_text m) w)
    as (Hfetch & Htimer & Hframe & Hwrite & Hpay & Hset & Hprov & Hunk).

(** X5. One message, at most one network call: whatever the message, the
    storage and the network, the listener calls [fetch] once or not at
    all. *)
Theorem listener_at_most_one_fetch (env : Env) (message : option Message) (w : World) :
  exists l, fetches (final (listener env message w)) = fetches w ++ l /\
            (length l <= 1)%nat.
Proof.
  apply listener_cases.
  1-3: exists []; split; [symmetry; apply app_nil_r|simpl; lia].
  intros m ty _ _. summary env m ty w. exact Hfetch.
Qed.

(** X6. The listener leaves no abort timer behind: started with no timer
    pending, it ends with none, whether it answered or was left waiting
    for a body that never comes. *)
Theorem listener_leaves_no_timer (env : Env) (message : option Message) (w : World) :
  abortAt w = None -> abortAt (final (listener env message w)) = None.
Proof.
  intros Hw. apply listener_cases; try exact Hw.
  intros m ty _ _. summary env m ty w. exact Htimer.
Qed.

Lemma listener_leaves_no_timer_witness :
  abortAt (final (listener (env_of (reply_with 200 BodyNeverSettles))
                    (Some (request "GET_TTS" "hello")) world0)) = None.
Proof.
  apply (listener_leaves_no_timer (env_of (reply_with 200 BodyNeverSettles))
           (Some (request "GET_TTS" "hello")) world0).
  reflexivity.
Defined.

(** X7. Only a Translate request touches the storage: for a message of any
    other kind the storage is left as it was. *)
Theorem only_translate_touches_storage (env : Env) (message : Message) (w : World) :
  type message <> Some "TRANSLATE_TEXT" ->
  storage (final (listener env (Some message) w)) = storage w.
Proof.
  intros Hty. apply listener_cases; try reflexivity.
  intros m ty [= <-] (Hm & _). summary env message ty w.
  apply Hframe. intros ->. congruence.
Qed.

Lemma only_translate_touches_storage_witness :
  storage (final (listener (env_of (reply_with 200 (BodyText (quoted "{'analysis':{'type':'word'}}"))))
                    (Some (request "ANALYZE_TEXT" "hello"))
                    (with_entries {[ "t:it|hello" := old_entry ]})))
  = storage (with_entries {[ "t:it|hello" := old_entry ]}).
Proof.
  apply (only_translate_touches_storage
           (env_of (reply_with 200 (BodyText (quoted "{'analysis':{'type':'word'}}"))))
           (request "ANALYZE_TEXT" "hello")).
  discriminate.
Defined.

(** X8. The cache only gains what a successful translation brought: every
    entry found in the cache after the listener ran was there before, or
    it is the entry of this Translate request and holds the non-empty
    translation that was just answered. The proxy settings are never
    written. *)
Theorem cache_gains_only_answered_translations (env : Env) (message : Message)
    (w : World) :
  proxyUrl (storage (final (listener env (Some message) w))) = proxyUrl (storage w) /\
  proxyToken (storage (final (listener env (Some message) w))) = proxyToken (storage w) /\
  forall k e,
    cache_of (storage (final (listener env (Some message) w))) !! k = Some e ->
    cache_of (storage w) !! k = Some e \/
    (type message = Some "TRANSLATE_TEXT" /\ k = request_key message /\
     truthy (translation e) = true /\
     Translation (translation e) false ∈ sent (final (listener env (Some message) w))).
Proof.
  apply listener_cases; try (repeat split; intros k e Hk; left; exact Hk).
  intros m ty [= <-] (Hm & _).
  summary env message ty w. destruct Hprov as (Hu & Ht & Hc).
  split; [exact Hu|]. split; [exact Ht|]. intros k e Hk.
  destruct (Hc k e Hk) as [H|(-> & Hkey & Htr & Hin)]; [left; exact H|].
  right. repeat split; assumption.
Qed.

(** X9. A success answer always carries something: whatever the listener
    sends is a failure, or a translation, an analysis or an audio with its
    MIME type that are truthy. *)
Theorem success_answers_are_never_empty (env : Env) (message : option Message)
    (w : World) :
  exists rs, sent (final (listener env message w)) = sent w ++ rs /\
             Forall (fun r => carries_payload r = true) rs.
Proof.
  apply listener_cases.
  1: exists []; split; [symmetry; apply app_nil_r|constructor].
  1-2: eexists [_]; split; [reflexivity|repeat constructor].
  intros m ty _ _. summary env m ty w. exact Hpay.
Qed.

(** X10. Every call to the network goes to the stored proxy URL (to the
    default one when none is stored) and carries the stored token, if
    there is one, in [x-proxy-token]. *)
Theorem calls_use_the_stored_settings (env : Env) (message : option Message)
    (w : World) (c : FetchCall) :
  c ∈ fetches (final (listener env message w)) ->
  c ∈ fetches w \/
  (url c = or_default (proxyUrl (storage w))
             "https://smarttranslateplus-f5y4.vercel.app/api/translate" /\
   headers c = headers_for (storage w)).
Proof.
  revert c. apply listener_cases; try (intros c Hc; left; exact Hc).
  intros m ty _ _. summary env m ty w. exact Hset.
Qed.

Lemma calls_use_the_stored_settings_witness :
  {| url := "https://smarttranslateplus-f5y4.vercel.app/api/translate";
     headers := [("Content-Type", "application/json")];
     payload := JObj [("text", JStr "hello"); ("action", JStr "analyze")] |}
    ∈ fetches world0 \/
  (url {| url := "https://smarttranslateplus-f5y4.vercel.app/api/translate";
          headers := [("Content-Type", "application/json")];
          payload := JObj [("text", JStr "hello"); ("action", JStr "analyze")] |}
   = or_default (proxyUrl (storage world0))
       "https://smarttranslateplus-f5y4.vercel.app/api/translate" /\
   headers {| url := "https://smarttranslateplus-f5y4.vercel.app/api/translate";
              headers := [("Content-Type", "application/json")];
              payload := JObj [("text", JStr "hello"); ("action", JStr "analyze")] |}
   = headers_for (storage world0)).
Proof.
  apply (calls_use_the_stored_settings (env_of silent_network)
           (Some (request "ANALYZE_TEXT" "hello")) world0).
  vm_compute. apply list_elem_of_singleton. reflexivity.
Defined.

(** X11. A message of a kind the listener does not know is answered
    [unknown_message_type], without a call to the network and without a
    write to the storage. *)
Theorem unknown_kind_is_answered_without_network (env : Env) (message : Message)
    (ty : string) (w : World) :
  dispatched message ty -> known_kind ty = false ->
  task (listener env (Some message) w) = Done tt /\
  sent (final (listener env (Some message) w))
  = sent w ++ [Failure "unknown_message_type" []] /\
  fetches (final (listener env (Some message) w)) = fetches w /\
  storage (final (listener env (Some message) w)) = storage w.
Proof.
  intros Hd Hk. rewrite (dispatched_listener env message ty w Hd).
  summary env message ty w.
  destruct (Hunk Hk) as (Ho & Hs & Hf & Hst).
  split; [eapply run_task_done; exact Ho|]. auto.
Qed.

Lemma unknown_kind_is_answered_without_network_witness :
  task (listener (env_of silent_network) (Some (request "PING" "hello")) world0)
  = Done tt /\
  sent (final (listener (env_of silent_network) (Some (request "PING" "hello")) world0))
  = sent world0 ++ [Failure "unknown_message_type" []] /\
  fetches (final (listener (env_of silent_network) (Some (request "PING" "hello")) world0))
  = fetches world0 /\
  storage (final (listener (env_of silent_network) (Some (request "PING" "hello")) world0))
  = storage world0.
Proof.
  apply (unknown_kind_is_answered_without_network (env_of silent_network)
           (request "PING" "hello") "PING" world0).
  - repeat split; vm_compute; congruence.
  - reflexivity.
Defined.

(** X12. A cached translation that is truthy and at most 24 hours old when
    its age is compared is answered with [cached: true], without a call
    to the network and without a write to the storage. *)
Theorem cached_translation_is_served_without_network (env : Env) (message : Message)
    (w : World) (e : CacheEntry) :
  dispatched message "TRANSLATE_TEXT" ->
  cache_of (storage w) !! request_key message = Some e ->
  truthy (translation e) = true ->
  now w + 2 * storageLatency env - ts e <= CACHE_TTL_MS ->
  task (listener env (Some message) w) = Done tt /\
  sent (final (listener env (Some message) w))
  = sent w ++ [Translation (translation e) true] /\
  fetches (final (listener env (Some message) w)) = fetches w /\
  storage (final (listener env (Some message) w)) = storage w.
Proof.
  intros Hd Hk Ht Hage. rewrite (dispatched_listener env message _ w Hd).
  destruct (dispatch_hit env message (request_text message) w e Hk Ht Hage)
    as (Ho & Hs & Hf & Hst).
  split; [eapply run_task_done; exact Ho|]. auto.
Qed.

Lemma cached_translation_is_served_without_network_witness :
  task (listener (env_of silent_network) (Some (request "TRANSLATE_TEXT" " cat "))
          (with_entries {[ "t:it|cat" := other_entry ]})) = Done tt /\
  sent (final (listener (env_of silent_network) (Some (request "TRANSLATE_TEXT" " cat "))
                 (with_entries {[ "t:it|cat" := other_entry ]})))
  = sent (with_entries {[ "t:it|cat" := other_entry ]})
    ++ [Translation (translation other_entry) true] /\
  fetches (final (listener (env_of silent_network) (Some (request "TRANSLATE_TEXT" " cat "))
                    (with_entries {[ "t:it|cat" := other_entry ]})))
  = fetches (with_entries {[ "t:it|cat" := other_entry ]}) /\
  storage (final (listener (env_of silent_network) (Some (request "TRANSLATE_TEXT" " cat "))
                    (with_entries {[ "t:it|cat" := other_entry ]})))
  = storage (with_entries {[ "t:it|cat" := other_entry ]}).
Proof.
  apply (cached_translation_is_served_without_network (env_of silent_network)
           (request "TRANSLATE_TEXT" " cat ")
           (with_entries {[ "t:it|cat" := other_entry ]}) other_entry).
  - repeat split; vm_compute; congruence.
  - vm_compute. reflexivity.
  - reflexivity.
  - vm_compute. discriminate.
Defined.

(** X13. A translation that was answered from the network is answered from
    the cache when the same message comes again: if the first run sent
    [t] with no [cached] flag, then a second run that starts [d]
    milliseconds after the first one ended, early enough for the entry to
    be at most 24 hours old, sends [t] with [cached: true] and calls the
    network no more. *)
Theorem answered_translation_is_served_again (env1 env2 : Env) (message : Message)
    (w : World) (t : json) (d : Z) :
  dispatched message "TRANSLATE_TEXT" ->
  sent (final (listener env1 (Some message) w)) = sent w ++ [Translation t false] ->
  d + storageLatency env1 + 2 * storageLatency env2 <= CACHE_TTL_MS ->
  task (listener env2 (Some message) (elapse d (final (listener env1 (Some message) w))))
  = Done tt /\
  sent (final (listener env2 (Some message)
                 (elapse d (final (listener env1 (Some message) w)))))
  = sent w ++ [Translation t false; Translation t true] /\
  fetches (final (listener env2 (Some message)
                    (elapse d (final (listener env1 (Some message) w)))))
  = fetches (final (listener env1 (Some message) w)).
Proof.
  intros Hd Hs Hage.
  rewrite (dispatched_listener env1 message _ w Hd) in *.
  cbn [final run] in *.
  summary env1 message "TRANSLATE_TEXT" w.
  set (w1 := exec (dispatch env1 "TRANSLATE_TEXT" message (request_text message)) w) in *.
  pose proof (Hwrite t Hs) as Hk.
  assert (Ht : truthy t = true).
  { destruct Hpay as (rs & Hrs & Hall). rewrite Hs in Hrs.
    apply app_inv_head in Hrs. subst rs.
    apply Forall_cons in Hall as [Hall _]. exact Hall. }
  rewrite (dispatched_listener env2 message _ (elapse d w1) Hd).
  destruct (dispatch_hit env2 message (request_text message) (elapse d w1)
              {| translation := t; ts := now w1 - storageLatency env1 |})
    as (Ho & Hs2 & Hf & _).
  - exact Hk.
  - exact Ht.
  - cbn. lia.
  - split; [eapply run_task_done; exact Ho|]. split; [|exact Hf].
    cbn [final run]. rewrite Hs2. cbn [elapse sent].
    rewrite Hs, <- app_assoc. reflexivity.
Qed.

Lemma answered_translation_is_served_again_witness :
  task (listener (env_of silent_network) (Some (request "TRANSLATE_TEXT" " hello "))
          (elapse 3600000
             (final (listener
                       (env_of (reply_with 200 (BodyText (quoted "{'translation':'ciao'}"))))
                       (Some (request "TRANSLATE_TEXT" " hello ")) world0))))
  = Done tt /\
  sent (final (listener (env_of silent_network) (Some (request "TRANSLATE_TEXT" " hello "))
                 (elapse 3600000
                    (final (listener
                              (env_of (reply_with 200 (BodyText (quoted "{'translation':'ciao'}"))))
                              (Some (request "TRANSLATE_TEXT" " hello ")) world0)))))
  = sent world0 ++ [Translation (JStr "ciao") false; Translation (JStr "ciao") true] /\
  fetches (final (listener (env_of silent_network) (Some (request "TRANSLATE_TEXT" " hello "))
                    (elapse 3600000
                       (final (listener
                                 (env_of (reply_with 200 (BodyText (quoted "{'translation':'ciao'}"))))
                                 (Some (request "TRANSLATE_TEXT" " hello ")) world0)))))
  = fetches (final (listener
                      (env_of (reply_with 200 (BodyText (quoted "{'translation':'ciao'}"))))
                      (Some (request "TRANSLATE_TEXT" " hello ")) world0)).
Proof.
  apply (answered_translation_is_served_again
           (env_of (reply_with 200 (BodyText (quoted "{'translation':'ciao'}"))))
           (env_of silent_network) (request "TRANSLATE_TEXT" " hello ") world0
           (JStr "ciao") 3600000).
  - repeat split; vm_compute; congruence.
  - vm_compute. reflexivity.
  - vm_compute. discriminate.
Defined.

(** X14. When the proxy answers a call with a status outside 200..299, the
    listener answers [proxy_error] with that status and the text of the
    body (the empty text when the body cannot be read), for each of the
    three kinds. *)
Theorem proxy_failure_is_passed_on (env : Env) (message : Message) (ty : string)
    (w : World) (l : Z) (resp : HttpResponse) :
  dispatched message ty -> answers_in_time env ty l resp ->
  ok resp = false -> body resp <> BodyNeverSettles ->
  fetches (final (listener env (Some message) w)) <> fetches w ->
  task (listener env (Some message) w) = Done tt /\
  sent (final (listener env (Some message) w))
  = sent w ++ [Failure "proxy_error"
                 [("status", JNum (status resp) 0); ("message", JStr (body_text resp))]].
Proof.
  intros Hd Hnet Hok Hb. rewrite (dispatched_listener env message ty w Hd).
  intros Hf.
  destruct (dispatch_proxy_error env message ty (request_text message) w l resp
              Hnet Hok Hb Hf) as [Ho Hs].
  split; [eapply run_task_done; exact Ho|exact Hs].
Qed.

Lemma proxy_failure_is_passed_on_witness :
  task (listener (env_of (reply_with 429 (BodyFails SyntaxError)))
          (Some (request "GET_TTS" "hello")) world0) = Done tt /\
  sent (final (listener (env_of (reply_with 429 (BodyFails SyntaxError)))
                 (Some (request "GET_TTS" "hello")) world0))
  = sent world0 ++
    [Failure "proxy_error"
       [("status", JNum (status {| status := 429; body := BodyFails SyntaxError |}) 0);
        ("message", JStr (body_text {| status := 429; body := BodyFails SyntaxError |}))]].
Proof.
  apply (proxy_failure_is_passed_on (env_of (reply_with 429 (BodyFails SyntaxError)))
           (request "GET_TTS" "hello") "GET_TTS" world0 120
           {| status := 429; body := BodyFails SyntaxError |}).
  - repeat split; vm_compute; congruence.
  - repeat split; vm_compute; congruence.
  - reflexivity.
  - discriminate.
  - vm_compute. discriminate.
Defined.



(** X16. What the listener posts, the handler accepts: the payload of every
    call the listener makes passes the validation of the handler (with
    the API key configured) and is served by the branch of its kind:
    Analyze for [ANALYZE_TEXT], Synthesize for [GET_TTS], Translate for
    [TRANSLATE_TEXT]; and the provider is asked to translate the trimmed
    text into the target that is part of the cache key. *)
Theorem posted_payload_is_served_by_its_branch (env : Env) (message : Message)
    (ty : string) (w : World) (senv : Proxy.Env)
    (up : Proxy.UpstreamCall -> Proxy.Upstream) (req : Proxy.Request) (c : FetchCall) :
  dispatched message ty ->
  Proxy.env_or (Proxy.OPENAI_API_KEY senv) None <> None ->
  c ∈ fetches (final (listener env (Some message) w)) -> c ∉ fetches w ->
  Proxy.method req = "POST" -> Proxy.carries req (payload c) ->
  Proxy.route (Proxy.handler senv up req) = Some (branch_for ty) /\
  (ty = "TRANSLATE_TEXT" ->
   Proxy.calls (Proxy.handler senv up req)
   = [Proxy.ChatTranslate (or_default (Proxy.OPENAI_MODEL senv) "gpt-3.5-turbo")
        (JStr (or_default (target message) "it")) (request_text message)]).
Proof.
  intros Hd Hkey. rewrite (dispatched_listener env message ty w Hd).
  destruct Hd as (_ & _ & Hne & Hlen).
  intros Hc Hnew Hm Hcarries.
  destruct (dispatch_payload_served env message ty (request_text message) w senv up
              Hne Hlen Hkey c Hc) as [Hold|(Ht & Hr & Hcalls)]; [contradiction|].
  rewrite (RoutingProps.handler_post senv up req (payload c) Hm Hcarries Ht).
  split; assumption.
Qed.

Lemma posted_payload_is_served_by_its_branch_witness :
  Proxy.route (Proxy.handler server_env providers
                 (post_of "{'text':'hello','tts':true,'voice':null}"))
  = Some (branch_for "GET_TTS") /\
  ("GET_TTS" = "TRANSLATE_TEXT" ->
   Proxy.calls (Proxy.handler server_env providers
                  (post_of "{'text':'hello','tts':true,'voice':null}"))
   = [Proxy.ChatTranslate (or_default (Proxy.OPENAI_MODEL server_env) "gpt-3.5-turbo")
        (JStr (or_default (target (request "GET_TTS" " hello ")) "it"))
        (request_text (request "GET_TTS" " hello "))]).
Proof.
  apply (posted_payload_is_served_by_its_branch (env_of silent_network)
           (request "GET_TTS" " hello ") "GET_TTS" world0 server_env providers
           (post_of "{'text':'hello','tts':true,'voice':null}")
           {| url := "https://smarttranslateplus-f5y4.vercel.app/api/translate";
              headers := [("Content-Type", "application/json")];
              payload := JObj [("text", JStr "hello"); ("tts", JBool true);
                               ("voice", JNull)] |}).
  - repeat split; vm_compute; congruence.
  - discriminate.
  - vm_compute. apply list_elem_of_singleton. reflexivity.
  - vm_compute. apply not_elem_of_nil.
  - reflexivity.
  - left. vm_compute. reflexivity.
Defined.

End ListenerProps.

(** ** Further properties of the handler *)

Module HandlerProps.
Import Js Json Proxy Examples StringFacts.

Lemma obj_get_set_eq (k : string) (v : json) (l : list (string * json)) :
  obj_get k (obj_set k v l) = Some v.
Proof.
  induction l as [|[k' v'] l IH]; simpl.
  - rewrite String.eqb_refl. reflexivity.
  - destruct (String.eqb k k') eqn:E; simpl; rewrite ?String.eqb_refl, ?E; auto.
Qed.

Lemma obj_get_set_ne (k k' : string) (v : json) (l : list (string * json)) :
  k' <> k -> obj_get k' (obj_set k v l) = obj_get k' l.
Proof.
  intros Hne. induction l as [|[k0 v0] l IH]; simpl.
  - apply String.eqb_neq in Hne. rewrite Hne. reflexivity.
  - destruct (String.eqb k k0) eqn:E; simpl.
    + apply String.eqb_eq in E. subst k0.
      apply String.eqb_neq in Hne. rewrite Hne. reflexivity.
    + rewrite IH. reflexivity.
Qed.

Lemma default_array_filled (k : string) (l : list (string * json)) :
  truthy_opt (prop k (default_array k (JObj l))) = true.
Proof.
  unfold default_array. destruct (truthy_opt (obj_get k l)) eqn:E; simpl.
  - exact E.
  - rewrite obj_get_set_eq. reflexivity.
Qed.

Lemma default_array_other (k k' : string) (p : json) :
  k' <> k -> prop k' (default_array k p) = prop k' p.
Proof.
  intros Hne. destruct p; try reflexivity. unfold default_array.
  destruct (truthy_opt (obj_get k props)); [reflexivity|].
  simpl. apply obj_get_set_ne. exact Hne.
Qed.

Lemma default_array_kept (k k' : string) (p : json) :
  truthy_opt (prop k' p) = true -> prop k' (default_array k p) = prop k' p.
Proof.
  intros Ht. destruct (String.eqb_spec k' k) as [->|Hne].
  - destruct p; try reflexivity. unfold default_array. simpl in Ht.
    rewrite Ht. reflexivity.
  - apply default_array_other. exact Hne.
Qed.

Lemma default_array_object (k : string) (p : json) :
  not_an_object (default_array k p) = not_an_object p.
Proof.
  destruct p; try reflexivity. unfold default_array.
  destruct (truthy_opt (obj_get k props)); reflexivity.
Qed.

Lemma default_array_shape (k : string) (l : list (string * json)) :
  exists l', default_array k (JObj l) = JObj l'.
Proof.
  unfold default_array. destruct (truthy_opt (obj_get k l)); eauto.
Qed.

(** What "Ensure required fields exist" ensures: the value stays an
    object with the type it had; an analysis of type [word] has its three
    arrays and one of type [sentence] its two; no property that was set
    to something truthy is replaced. *)
Lemma ensure_fields_spec (p : json) :
  not_an_object (ensure_fields p) = not_an_object p /\
  prop "type" (ensure_fields p) = prop "type" p /\
  (is_str "word" (prop "type" p) = true ->
   truthy_opt (prop "synonyms" (ensure_fields p)) = true /\
   truthy_opt (prop "antonyms" (ensure_fields p)) = true /\
   truthy_opt (prop "examples" (ensure_fields p)) = true) /\
  (is_str "sentence" (prop "type" p) = true ->
   truthy_opt (prop "words" (ensure_fields p)) = true /\
   truthy_opt (prop "examples" (ensure_fields p)) = true) /\
  (forall k, truthy_opt (prop k p) = true ->
             prop k (ensure_fields p) = prop k p).
Proof.
  unfold ensure_fields.
  destruct (is_str "word" (prop "type" p)) eqn:Hw;
    [|destruct (is_str "sentence" (prop "type" p)) eqn:Hs].
  - assert (Hs : is_str "sentence" (prop "type" p) = false).
    { unfold is_str in *. destruct (prop "type" p) as [[]|]; try reflexivity.
      apply String.eqb_eq in Hw. subst. reflexivity. }
    split; [rewrite !default_array_object; reflexivity|].
    split; [rewrite !default_array_other by discriminate; reflexivity|].
    split; [|split; [rewrite Hs; discriminate|]].
    + intros _. destruct p as [| | | | |l]; try discriminate Hw.
      destruct (default_array_shape "synonyms" l) as [l1 E1]. rewrite E1.
      destruct (default_array_shape "antonyms" l1) as [l2 E2]. rewrite E2.
      split; [|split].
      * rewrite default_array_other by discriminate. rewrite <- E2.
        rewrite default_array_other by discriminate. rewrite <- E1.
        apply default_array_filled.
      * rewrite default_array_other by discriminate. rewrite <- E2.
        apply default_array_filled.
      * apply default_array_filled.
    + intros k Hk. rewrite default_array_kept; rewrite default_array_kept;
        try rewrite default_array_kept; auto.
  - split; [rewrite !default_array_object; reflexivity|].
    split; [rewrite !default_array_other by discriminate; reflexivity|].
    split; [discriminate|split].
    + intros _. destruct p as [| | | | |l]; try discriminate Hs.
      destruct (default_array_shape "words" l) as [l1 E1]. rewrite E1.
      split.
      * rewrite default_array_other by discriminate. rewrite <- E1.
        apply default_array_filled.
      * apply default_array_filled.
    + intros k Hk. rewrite default_array_kept; rewrite default_array_kept; auto.
  - repeat split; auto; discriminate.
Qed.

Ltac outer_cases :=
  unfold handler, handle_payload, finish, reject;
  repeat (case_match; cbn [response calls route] in *); simplify_eq.

Ltac path_cases :=
  unfold analyze_path, synthesize_path, translate_path, proxy_failed, reply in *;
  repeat case_match; simplify_eq; cbn [status cors answer] in *.

Ltac handler_split := outer_cases; path_cases.

(** What the three branches answer when they answer: a 200 or a 502,
    with the CORS headers. *)
Lemma path_answers (env : Env) (up : Upstream) (a : Response) :
  analyze_path up = inl a \/ synthesize_path env up = inl a \/
  translate_path up = inl a ->
  cors a = true /\ (status a = 200 \/ status a = 502).
Proof. intros [H|[H|H]]; path_cases; auto. Qed.

(** X17. The handler answers with one of five status codes, whatever the
    request, the environment and the providers. *)
Theorem handler_status_codes (env : Env) (upstream : UpstreamCall -> Upstream)
    (req : Request) :
  status (response (handler env upstream req)) ∈ [200; 400; 405; 500; 502].
Proof.
  outer_cases.
  all: try solve [cbn; repeat constructor].
  all: match goal with
       | H : _ = inl ?a |- status ?a ∈ _ =>
           let Hp := fresh in
           eassert (Hp : cors a = true /\ (status a = 200 \/ status a = 502))
             by (eapply (path_answers env); eauto);
           destruct Hp as [_ [-> | ->]]; repeat constructor
       end.
Qed.

(** X18. A provider is called at most once, and only for a POST request
    whose payload was accepted with the API key configured. *)
Theorem provider_called_at_most_once (env : Env) (upstream : UpstreamCall -> Upstream)
    (req : Request) :
  (length (calls (handler env upstream req)) <= 1)%nat /\
  (calls (handler env upstream req) <> [] ->
   method req = "POST" /\ route (handler env upstream req) <> None /\
   env_or (OPENAI_API_KEY env) None <> None).
Proof.
  outer_cases.
  all: split; [simpl; lia|]; intros Hc; try congruence.
  all: repeat split; try congruence.
  all: match goal with
       | H : negb (String.eqb _ "POST") = false |- _ =>
           apply negb_false_iff, String.eqb_eq in H; exact H
       end.
Qed.

(** X19. Every answer carries the CORS headers except [invalid_json], which
    is sent before they are set: a 400 to a POST request whose body the
    platform did not parse and whose stream does not hold JSON. *)
Theorem cors_on_all_but_invalid_json (env : Env) (upstream : UpstreamCall -> Upstream)
    (req : Request) :
  cors (response (handler env upstream req)) = true \/
  (method req = "POST" /\ truthy_opt (body req) = false /\
   status (response (handler env upstream req)) = 400 /\
   is_str "invalid_json"
     (prop "error" (default JNull (answer (response (handler env upstream req)))))
   = true /\
   calls (handler env upstream req) = []).
Proof.
  outer_cases.
  all: try (left; reflexivity).
  all: try (left; eapply (path_answers env); eauto; fail).
  all: right.
  all: match goal with
       | H : (String.eqb _ "POST" && negb _)%bool = true |- _ =>
           apply andb_prop in H as [Hpost Hbody];
           apply String.eqb_eq in Hpost; apply negb_true_iff in Hbody
       end.
  all: repeat split; auto.
Qed.

(** X20. A translation that is answered is a trimmed text that is not
    empty. *)
Theorem translation_answer_is_trimmed (env : Env) (upstream : UpstreamCall -> Upstream)
    (req : Request) :
  route (handler env upstream req) = Some Translate ->
  status (response (handler env upstream req)) = 200 ->
  exists t, answer (response (handler env upstream req))
            = Some (JObj [("translation", JStr t)]) /\
            t <> EmptyString /\ trim t = t.
Proof.
  outer_cases.
  all: intros Hr Hs; try discriminate.
  all: path_cases; try discriminate.
  all: eexists; split; [reflexivity|]; split; [|apply trim_idem].
  all: intros E;
    match goal with H : truthy_str (trim _) = true |- _ => rewrite E in H; discriminate H end.
Qed.

Lemma translation_answer_is_trimmed_witness :
  exists t,
    answer (response (handler server_env
                        (fun _ => Responds 200
                           (inl (quoted "{'choices':[{'message':{'content':'  ciao  '}}]}")))
                        (post_of "{'text':'hello'}")))
    = Some (JObj [("translation", JStr t)]) /\
    t <> EmptyString /\ trim t = t.
Proof.
  apply (translation_answer_is_trimmed server_env
           (fun _ => Responds 200
              (inl (quoted "{'choices':[{'message':{'content':'  ciao  '}}]}")))
           (post_of "{'text':'hello'}")).
  - vm_compute. reflexivity.
  - vm_compute. reflexivity.
Defined.

(** X21. An analysis that is answered is an object (or an array); when its
    type is [word] it has synonyms, antonyms and examples, when its type
    is [sentence] it has words and examples, each set to the value the
    model gave or to an empty array. *)
Theorem analysis_answer_has_its_arrays (env : Env) (upstream : UpstreamCall -> Upstream)
    (req : Request) :
  route (handler env upstream req) = Some Analyze ->
  status (response (handler env upstream req)) = 200 ->
  exists a, answer (response (handler env upstream req))
            = Some (JObj [("analysis", a)]) /\
            not_an_object a = false /\
            (is_str "word" (prop "type" a) = true ->
             truthy_opt (prop "synonyms" a) = true /\
             truthy_opt (prop "antonyms" a) = true /\
             truthy_opt (prop "examples" a) = true) /\
            (is_str "sentence" (prop "type" a) = true ->
             truthy_opt (prop "words" a) = true /\
             truthy_opt (prop "examples" a) = true).
Proof.
  outer_cases.
  all: intros Hr Hs; try discriminate.
  all: path_cases; try discriminate.
  all: match goal with
       | H : parse_model_output ?c = ParseOk ?p |- _ =>
           exists (ensure_fields p); split; [reflexivity|];
           destruct (ensure_fields_spec p) as (Ho & Hty & Hw & Hse & _);
           rewrite Ho, Hty; split; [|split; assumption];
           unfold parse_model_output in H; repeat case_match; congruence
       end.
Qed.

Lemma analysis_answer_has_its_arrays_witness :
  exists a,
    answer (response (handler server_env
                        (fun _ => Responds 200
                           (inl (quoted "{'choices':[{'message':{'content':'{\'type\':\'sentence\',\'words\':0}'}}]}")))
                        (post_of "{'text':'the cat sleeps','action':'analyze'}")))
    = Some (JObj [("analysis", a)]) /\
    not_an_object a = false /\
    (is_str "word" (prop "type" a) = true ->
     truthy_opt (prop "synonyms" a) = true /\
     truthy_opt (prop "antonyms" a) = true /\
     truthy_opt (prop "examples" a) = true) /\
    (is_str "sentence" (prop "type" a) = true ->
     truthy_opt (prop "words" a) = true /\
     truthy_opt (prop "examples" a) = true).
Proof.
  apply (analysis_answer_has_its_arrays server_env
           (fun _ => Responds 200
              (inl (quoted "{'choices':[{'message':{'content':'{\'type\':\'sentence\',\'words\':0}'}}]}")))
           (post_of "{'text':'the cat sleeps','action':'analyze'}")).
  - vm_compute. reflexivity.
  - vm_compute. reflexivity.
Defined.

(** X22. A provider that answers with a failure status is reported as a 502
    that carries the provider's text: [openai_error] from the chat
    provider, [eleven_error] with the status from the speech provider. *)
Theorem provider_error_is_502 (env : Env) (upstream : UpstreamCall -> Upstream)
    (req : Request) (st : Z) (txt : string) :
  (forall c, upstream c = Responds st (inl txt)) -> up_ok st = false ->
  calls (handler env upstream req) <> [] ->
  status (response (handler env upstream req)) = 502 /\
  answer (response (handler env upstream req))
  = Some (JObj (match route (handler env upstream req) with
                | Some Synthesize =>
                    [("error", JStr "eleven_error"); ("status", JNum st 0);
                     ("detail", JStr txt)]
                | _ => [("error", JStr "openai_error"); ("detail", JStr txt)]
                end)).
Proof.
  intros Hup Hst. outer_cases.
  all: intros Hc; try congruence.
  all: match goal with
       | H : context [_ ?c] |- _ => rewrite (Hup c) in H
       end.
  all: path_cases; try discriminate.
  all: try (rewrite Hst in *; discriminate).
  all: split; reflexivity.
Qed.

Lemma provider_error_is_502_witness :
  status (response (handler server_env (fun _ => Responds 429 (inl "slow down"))
                      (post_of "{'text':'hello'}"))) = 502 /\
  answer (response (handler server_env (fun _ => Responds 429 (inl "slow down"))
                      (post_of "{'text':'hello'}")))
  = Some (JObj (match route (handler server_env (fun _ => Responds 429 (inl "slow down"))
                               (post_of "{'text':'hello'}")) with
                | Some Synthesize =>
                    [("error", JStr "eleven_error"); ("status", JNum 429 0);
                     ("detail", JStr "slow down")]
                | _ => [("error", JStr "openai_error"); ("detail", JStr "slow down")]
                end)).
Proof.
  apply (provider_error_is_502 server_env (fun _ => Responds 429 (inl "slow down"))
           (post_of "{'text':'hello'}") 429 "slow down").
  - intros c. reflexivity.
  - reflexivity.
  - vm_compute. discriminate.
Defined.

(** X23. A provider that cannot be reached: the speech branch catches the
    failure itself and answers 502 [tts_failed]; the two chat branches
    leave it to the outer [catch], which answers 500 [proxy_failed]. Both
    carry the message of the error. *)
Theorem provider_unreachable (env : Env) (upstream : UpstreamCall -> Upstream)
    (req : Request) (e : JsError) :
  (forall c, upstream c = Rejects e) ->
  calls (handler env upstream req) <> [] ->
  response (handler env upstream req)
  = match route (handler env upstream req) with
    | Some Synthesize =>
        reply 502 true [("error", JStr "tts_failed");
                        ("message", JStr (failure_message e))]
    | _ => reply 500 true [("error", JStr "proxy_failed");
                           ("message", JStr (failure_message e))]
    end.
Proof.
  intros Hup. outer_cases.
  all: intros Hc; try congruence.
  all: match goal with
       | H : context [_ ?c] |- _ => rewrite (Hup c) in H
       end.
  all: path_cases; try discriminate.
  all: reflexivity.
Qed.

Lemma provider_unreachable_witness :
  response (handler server_env
              (fun _ => Rejects {| err_name := "TypeError"; err_message := "fetch failed" |})
              (post_of "{'text':'hello','tts':true}"))
  = match route (handler server_env
                   (fun _ => Rejects {| err_name := "TypeError";
                                        err_message := "fetch failed" |})
                   (post_of "{'text':'hello','tts':true}")) with
    | Some Synthesize =>
        reply 502 true [("error", JStr "tts_failed");
                        ("message", JStr (failure_message
                           {| err_name := "TypeError"; err_message := "fetch failed" |}))]
    | _ => reply 500 true [("error", JStr "proxy_failed");
                           ("message", JStr (failure_message
                              {| err_name := "TypeError"; err_message := "fetch failed" |}))]
    end.
Proof.
  apply (provider_unreachable server_env
           (fun _ => Rejects {| err_name := "TypeError"; err_message := "fetch failed" |})
           (post_of "{'text':'hello','tts':true}")
           {| err_name := "TypeError"; err_message := "fetch failed" |}).
  - intros c. reflexivity.
  - vm_compute. discriminate.
Defined.

Lemma env_or_none (a : option string) (s : string) :
  env_or a None = Some s -> truthy_str s = true.
Proof.
  unfold env_or. destruct a as [t|]; [|discriminate].
  destruct (truthy_str t) eqn:E; [|discriminate]. intros [= <-]. exact E.
Qed.

(** X24. The speech branch takes its key and its voice from the environment
    first: [ELEVENLABS_KEY] before [ELEVEN_API_KEY], and [ELEVEN_VOICE_ID]
    before the voice of the request, which is used only when the
    environment names none. Without a key or without a voice it answers
    500 [tts_not_configured] and calls no provider. *)
Theorem speech_settings_come_from_the_environment (env : Env)
    (upstream : UpstreamCall -> Upstream) (req : Request) :
  route (handler env upstream req) = Some Synthesize ->
  (calls (handler env upstream req) = [] /\
   status (response (handler env upstream req)) = 500 /\
   is_str "tts_not_configured"
     (prop "error" (default JNull (answer (response (handler env upstream req)))))
   = true) \/
  (exists key voice text,
     calls (handler env upstream req) = [TextToSpeech key voice text] /\
     env_or (ELEVENLABS_KEY env) (env_or (ELEVEN_API_KEY env) None) = Some key /\
     (forall v, env_or (ELEVEN_VOICE_ID env) None = Some v -> voice = JStr v) /\
     truthy voice = true /\
     status (response (handler env upstream req)) <> 500).
Proof.
  outer_cases.
  all: intros Hr; try discriminate.
  all: try (left; repeat split; reflexivity).
  all: right; do 3 eexists; split; [reflexivity|].
  all: split; [reflexivity|].
  all: split; [intros v0 Hv; congruence|].
  all: split;
    [first [ reflexivity
           | eapply env_or_none; eassumption
           | match goal with
             | H : truthy_opt ?o = true, E : ?o = Some ?j |- truthy ?j = true =>
                 rewrite E in H; exact H
             end ]|].
  all: path_cases; lia.
Qed.

Lemma speech_settings_come_from_the_environment_witness :
  (calls (handler server_env providers (post_of "{'text':'hi','tts':true,'voice':'v9'}")) = [] /\
   status (response (handler server_env providers
                       (post_of "{'text':'hi','tts':true,'voice':'v9'}"))) = 500 /\
   is_str "tts_not_configured"
     (prop "error" (default JNull (answer (response
        (handler server_env providers
           (post_of "{'text':'hi','tts':true,'voice':'v9'}")))))) = true) \/
  (exists key voice text,
     calls (handler server_env providers (post_of "{'text':'hi','tts':true,'voice':'v9'}"))
     = [TextToSpeech key voice text] /\
     env_or (ELEVENLABS_KEY server_env) (env_or (ELEVEN_API_KEY server_env) None)
     = Some key /\
     (forall v, env_or (ELEVEN_VOICE_ID server_env) None = Some v -> voice = JStr v) /\
     truthy voice = true /\
     status (response (handler server_env providers
                         (post_of "{'text':'hi','tts':true,'voice':'v9'}"))) <> 500).
Proof.
  apply (speech_settings_come_from_the_environment server_env providers
           (post_of "{'text':'hi','tts':true,'voice':'v9'}")).
  vm_compute. reflexivity.
Defined.

End HandlerProps.

(** ** Properties of the content script *)

Module ContentProps.
Import Js Json Dispatcher Notions Content StringFacts.

(** The [j]-th click that goes on to a request comes at least [j + 1]
    cooldowns after the clock value the gate started from. *)
Lemma accepted_after (times : list Z) : forall (last : Z) (j : nat) (b : Z),
  accepted times last !! j = Some b ->
  b - last >= REQUEST_COOLDOWN_MS * (Z.of_nat j + 1).
Proof.
  unfold REQUEST_COOLDOWN_MS.
  induction times as [|t r IH]; intros last j b; simpl; [discriminate|].
  unfold click_gate, REQUEST_COOLDOWN_MS.
  destruct (Z.ltb_spec (t - last) 2000) as [Hlt|Hge].
  - apply IH.
  - destruct j as [|j]; simpl.
    + intros [= <-]. lia.
    + intros Hb. specialize (IH t j b Hb). lia.
Qed.

(** X25. Two clicks that go on to a request are at least two seconds apart
    by the clock the gate reads, whatever the clicks and whether or not
    the clock runs forward; the [j]-th after a given one comes at least
    [j] cooldowns later. *)
Theorem requests_are_two_seconds_apart (times : list Z) (last : Z) (i j : nat)
    (a b : Z) :
  (i < j)%nat ->
  accepted times last !! i = Some a -> accepted times last !! j = Some b ->
  b - a >= REQUEST_COOLDOWN_MS * Z.of_nat (j - i).
Proof.
  revert last i j. induction times as [|t r IH]; intros last i j Hij; simpl;
    [discriminate|].
  unfold click_gate.
  destruct (Z.ltb_spec (t - last) REQUEST_COOLDOWN_MS) as [Hlt|Hge].
  - apply IH. exact Hij.
  - destruct j as [|j]; [lia|]. destruct i as [|i]; simpl.
    + intros [= <-] Hb. pose proof (accepted_after r t j b Hb) as H.
      unfold REQUEST_COOLDOWN_MS in *. lia.
    + intros Ha Hb. apply (IH t i j); [lia|assumption|assumption].
Qed.

Lemma requests_are_two_seconds_apart_witness :
  accepted [1000; 1500; 2999; 3000; 4000; 900; 6100] (-5000) = [1000; 3000; 6100] /\
  6100 - 1000 >= REQUEST_COOLDOWN_MS * Z.of_nat (2 - 0).
Proof.
  split; [reflexivity|].
  apply (requests_are_two_seconds_apart [1000; 1500; 2999; 3000; 4000; 900; 6100]
           (-5000) 0 2 1000 6100).
  - lia.
  - reflexivity.
  - reflexivity.
Defined.

(** X26. What the script sends, the listener takes up: the message of the
    bubble carries the trimmed selection, which the listener, trimming it
    again, forwards unchanged as a Translate request into Italian; the
    details button sends the same text as an Analyze request. Only a
    selection over 10000 characters is turned down. *)
Theorem script_messages_pass_the_checks (selection : string) (m : Message) :
  bubble_message selection = Some m ->
  Z.of_nat (String.length (trim selection)) <= 10000 ->
  dispatched m "TRANSLATE_TEXT" /\
  request_text m = trim selection /\
  request_key m = "t:it|" +:+ trim selection /\
  dispatched (details_message (trim selection)) "ANALYZE_TEXT".
Proof.
  unfold bubble_message. destruct (trim selection) as [|c r] eqn:Ht; [discriminate|].
  intros [= <-] Hlen.
  assert (Hr : trim (String c r) = String c r) by (rewrite <- Ht; apply trim_idem).
  unfold dispatched, request_key, request_text, details_message; cbn [type text target].
  change (or_default (Some (String c r)) EmptyString) with (String c r).
  change (or_default None "it") with "it". rewrite Hr.
  repeat split; try discriminate; try assumption.
Qed.

Lemma script_messages_pass_the_checks_witness :
  dispatched {| type := Some "TRANSLATE_TEXT"; text := Some "hello world";
                target := None; voice := None |} "TRANSLATE_TEXT" /\
  request_text {| type := Some "TRANSLATE_TEXT"; text := Some "hello world";
                  target := None; voice := None |} = trim "  hello world " /\
  request_key {| type := Some "TRANSLATE_TEXT"; text := Some "hello world";
                 target := None; voice := None |} = "t:it|" +:+ trim "  hello world " /\
  dispatched (details_message (trim "  hello world ")) "ANALYZE_TEXT".
Proof.
  apply (script_messages_pass_the_checks "  hello world "
           {| type := Some "TRANSLATE_TEXT"; text := Some "hello world";
              target := None; voice := None |}).
  - reflexivity.
  - vm_compute. discriminate.
Defined.

(** X27. The context sent with a selection is bounded: at most 503
    characters, or the selection with 200 characters on each side and the
    two ellipses when that is longer. *)
Theorem context_is_bounded (chain : list Element) (own : option string)
    (selectedText : string) :
  (String.length (getSelectionContext chain own selectedText)
   <= Nat.max 503 (String.length selectedText + 406))%nat.
Proof.
  unfold getSelectionContext.
  generalize (if negb (truthy_str (block_text chain))
                 || (String.length (block_text chain) <? 50)%nat
              then or_default own EmptyString else block_text chain).
  intros c. unfold limit_context, substring.
  set (ctx := collapse_ws (trim c)).
  destruct (indexOf selectedText ctx) as [i|];
    destruct (Nat.ltb_spec 500 (String.length ctx)) as [Hlong|Hshort]; try lia.
  - rewrite !length_append.
    pose proof (substring_length_le (i - 200)
                  (Nat.min (String.length ctx) (i + String.length selectedText + 200)
                   - (i - 200)) ctx) as Hsub.
    destruct (0 <? i - 200)%nat,
      (Nat.min (String.length ctx) (i + String.length selectedText + 200)
       <? String.length ctx)%nat; simpl; lia.
  - rewrite length_append.
    pose proof (substring_length_le 0 (500 - 0) ctx) as Hsub. simpl in *. lia.
Qed.

(** X28. Limiting the context does not lose the selection: when the cleaned
    context contains the selected text, so does the limited one. *)
Theorem context_keeps_the_selection (contextText selectedText : string) :
  selectedText <> EmptyString ->
  indexOf selectedText (collapse_ws (trim contextText)) <> None ->
  exists j, indexOf selectedText (limit_context contextText selectedText) = Some j.
Proof.
  intros Hne Hfound.
  cut (indexOf selectedText (limit_context contextText selectedText) <> None).
  { destruct (indexOf selectedText (limit_context contextText selectedText));
      [eauto|congruence]. }
  unfold limit_context.
  set (ctx := collapse_ws (trim contextText)) in *.
  destruct (indexOf selectedText ctx) as [i|] eqn:Hi; [|congruence].
  destruct (Nat.ltb_spec 500 (String.length ctx)) as [Hlong|Hshort];
    [|rewrite Hi; discriminate].
  pose proof (index_correct1 _ _ _ _ Hi) as Hsel.
  assert (Hin : (i + String.length selectedText <= String.length ctx)%nat).
  { destruct (substring_in_range _ _ _ _ Hsel eq_refl) as [H0|H]; [|exact H].
    destruct selectedText; [congruence|discriminate]. }
  set (start := (i - 200)%nat).
  set (end_ := Nat.min (String.length ctx) (i + String.length selectedText + 200)).
  set (pre := if (0 <? start)%nat then "..." else EmptyString).
  set (post := if (end_ <? String.length ctx)%nat then "..." else EmptyString).
  intros Hnone.
  apply (index_correct3 0 (String.length pre + (i - start))) in Hnone;
    [|exact Hne|lia].
  apply Hnone. unfold substring.
  rewrite substring_app_r.
  assert (Hlen : String.length (String.substring start (end_ - start) ctx)
                 = (end_ - start)%nat).
  { apply substring_length. unfold start, end_. lia. }
  rewrite substring_app_l by (rewrite Hlen; unfold start, end_; lia).
  rewrite substring_substring by (unfold start, end_; lia).
  replace (start + (i - start))%nat with i by (unfold start; lia).
  exact Hsel.
Qed.

Lemma context_keeps_the_selection_witness :
  exists j,
    indexOf "cat"
      (limit_context (repeat_char "a" 300 +:+ " the cat sat " +:+ repeat_char "b" 300) "cat")
    = Some j.
Proof.
  apply (context_keeps_the_selection
           (repeat_char "a" 300 +:+ " the cat sat " +:+ repeat_char "b" 300) "cat").
  - discriminate.
  - vm_compute. discriminate.
Defined.

Lemma lastIndexOf_space_spec (s : string) : forall i,
  lastIndexOf_space s = Some i ->
  exists p r, s = p +:+ String " " r /\ String.length p = i.
Proof.
  induction s as [|c s IH]; intros i; simpl; [discriminate|].
  destruct (lastIndexOf_space s) as [i'|].
  - intros [= <-]. destruct (IH i' eq_refl) as (p & r & -> & Hp).
    exists (String c p), r. simpl. auto.
  - destruct (Ascii.eqb_spec c " ") as [->|]; [|discriminate].
    intros [= <-]. exists EmptyString, s. auto.
Qed.

(** X29. A title over 50 characters is cut and marked: what is shown is a
    prefix of 1 to 50 characters of the text followed by an ellipsis,
    and a prefix shorter than 50 ends where a space follows it. *)
Theorem long_title_is_cut_at_a_space (original : string) :
  (50 < String.length original)%nat ->
  exists p rest,
    original = p +:+ rest /\ displayText original = p +:+ "..." /\
    (1 <= String.length p <= 50)%nat /\
    ((String.length p < 50)%nat -> exists r, rest = String " " r).
Proof.
  intros Hlong. unfold displayText, substring.
  destruct (Nat.ltb_spec 50 (String.length original)) as [_|]; [|lia].
  destruct (split_at 50 original) as (t & rest0 & Ho & Ht); [lia|].
  assert (Hsub : String.substring 0 (50 - 0) original = t).
  { rewrite Ho. change (50 - 0)%nat with 50%nat. rewrite <- Ht.
    apply substring_prefix. }
  rewrite Hsub.
  destruct (lastIndexOf_space t) as [i|] eqn:Hi;
    [destruct (Nat.ltb_spec 0 i) as [Hpos|Hzero]|].
  - destruct (lastIndexOf_space_spec t i Hi) as (p & r & Hp & Hlen).
    exists p, (String " " (r +:+ rest0)).
    assert (Ho' : original = p +:+ String " " (r +:+ rest0)).
    { rewrite Ho, Hp, append_assoc. reflexivity. }
    split; [exact Ho'|]. split.
    + rewrite Nat.sub_0_r. rewrite Ho' at 1. rewrite <- Hlen.
      rewrite substring_prefix. reflexivity.
    + rewrite Hp, length_append in Ht. simpl in Ht.
      split; [lia|]. intros _. eauto.
  - exists t, rest0. repeat split; try assumption; lia.
  - exists t, rest0. repeat split; try assumption; lia.
Qed.

Lemma long_title_is_cut_at_a_space_witness :
  exists p rest,
    "The quick brown fox jumps over the lazy dog and keeps on running"
    = p +:+ rest /\
    displayText "The quick brown fox jumps over the lazy dog and keeps on running"
    = p +:+ "..." /\
    (1 <= String.length p <= 50)%nat /\
    ((String.length p < 50)%nat -> exists r, rest = String " " r).
Proof.
  apply (long_title_is_cut_at_a_space
           "The quick brown fox jumps over the lazy dog and keeps on running").
  vm_compute. lia.
Defined.

End ContentProps.
